(** * The shared tool cache of the MCP server (packages/mcp/src/utils/cache.ts)

    A shallow embedding of the [Cache] class: a process-wide singleton with
    two entries, ['allowedOrgs'] (a [Set<string>]) and ['tools'] (a
    [Map<string, ToolInfo[]>]), whose static methods read and replace the
    entries inside [Cache.mutex.lock].

    JavaScript [Set], [Map] and array values are objects handled by
    reference, and several properties of the cache (snapshots that stay
    frozen, defensive copies, "returns the same mapping") are statements
    about which object is mutated and which reference is stored.  The
    embedding therefore keeps an explicit object store: every [new Map],
    [new Set], array literal and spread allocates a fresh location, and
    [Map.prototype.set] / [delete] mutate the object they are called on.
    The functions callers hand to [safeUpdate] and [updateToolsForSession]
    run on the same store: they receive a reference, may mutate what they
    can reach, and the reference they return is what the cache stores. *)

From Stdlib Require Import ssreflect.
From stdpp Require Import gmap strings list fin_maps.

Abbreviation loc := positive.

Section cache.

(** [ToolInfo] is imported from ./types.js and is opaque to the cache;
    [Error] stands for the values a caller-supplied function may throw. *)
Context {ToolInfo Error : Type}.

(** ** Completion of an evaluation: a value or a thrown error *)

Inductive Exc (A : Type) : Type :=
  | Ok (a : A)
  | Throw (e : Error).
Arguments Ok {A} a.
Arguments Throw {A} e.

(** ** The object store *)

(** [keyof CacheContents] *)
Inductive Key := KallowedOrgs | Ktools.

(** A [Cache] object: a [Map] from the two keys to the objects bound to them. *)
Record CacheObj := mkCache {
  allowedOrgs : loc;   (* a Set<string> *)
  tools : loc          (* a ToolCache = Map<string, ToolInfo[]> *)
}.

Record World := mkWorld {
  setObjs : gmap loc (gset string);        (* Set<string> objects *)
  mapObjs : gmap loc (gmap string loc);    (* Map<string, ToolInfo[]> objects *)
  arrObjs : gmap loc (list ToolInfo);      (* ToolInfo[] objects *)
  letVars : gmap loc loc;                  (* [let] variables captured by closures *)
  cacheObjs : gmap loc CacheObj;           (* Cache objects *)
  instance : option loc                    (* the static field Cache.instance *)
}.

(** The process before anything has been allocated. *)
Definition emptyWorld : World := mkWorld ∅ ∅ ∅ ∅ ∅ None.

Definition with_setObjs (f : gmap loc (gset string) → gmap loc (gset string)) (w : World) :=
  mkWorld (f (setObjs w)) (mapObjs w) (arrObjs w) (letVars w) (cacheObjs w) (instance w).
Definition with_mapObjs (f : gmap loc (gmap string loc) → gmap loc (gmap string loc)) (w : World) :=
  mkWorld (setObjs w) (f (mapObjs w)) (arrObjs w) (letVars w) (cacheObjs w) (instance w).
Definition with_arrObjs (f : gmap loc (list ToolInfo) → gmap loc (list ToolInfo)) (w : World) :=
  mkWorld (setObjs w) (mapObjs w) (f (arrObjs w)) (letVars w) (cacheObjs w) (instance w).
Definition with_letVars (f : gmap loc loc → gmap loc loc) (w : World) :=
  mkWorld (setObjs w) (mapObjs w) (arrObjs w) (f (letVars w)) (cacheObjs w) (instance w).
Definition with_cacheObjs (f : gmap loc CacheObj → gmap loc CacheObj) (w : World) :=
  mkWorld (setObjs w) (mapObjs w) (arrObjs w) (letVars w) (f (cacheObjs w)) (instance w).
Definition with_instance (i : option loc) (w : World) :=
  mkWorld (setObjs w) (mapObjs w) (arrObjs w) (letVars w) (cacheObjs w) i.

(** Dereferencing.  A reference handed out by an allocation always points
    to an object; the defaults below only make the functions total. *)
Definition setAt (w : World) (l : loc) : gset string := default ∅ (setObjs w !! l).
Definition mapAt (w : World) (l : loc) : gmap string loc := default ∅ (mapObjs w !! l).
Definition arrAt (w : World) (l : loc) : list ToolInfo := default [] (arrObjs w !! l).
Definition cacheAt (w : World) (l : loc) : CacheObj :=
  default (mkCache 1%positive 1%positive) (cacheObjs w !! l).

(** Computations: the store is threaded through, and survives a throw. *)
Definition M (A : Type) : Type := World → Exc A * World.

Definition ret {A} (a : A) : M A := λ w, (Ok a, w).

Definition bind {A B} (c : M A) (k : A → M B) : M B :=
  λ w, match c w with
       | (Ok a, w') => k a w'
       | (Throw e, w') => (Throw e, w')
       end.

Local Notation "'let*' x := c1 'in' c2" := (bind c1 (λ x, c2))
  (at level 10, x name, c1 at level 100, c2 at level 200).
Local Notation "'do' c1 'then' c2" := (bind c1 (λ _, c2))
  (at level 10, c1 at level 100, c2 at level 200).

(** *** Sets *)

(** [new Set<string>(elements)] *)
Definition newSet (s : gset string) : M loc :=
  λ w, let l := fresh (dom (setObjs w)) in (Ok l, with_setObjs (insert l s) w).

(** *** Arrays *)

(** An array literal: a fresh array object holding [xs]. *)
Definition newArray (xs : list ToolInfo) : M loc :=
  λ w, let l := fresh (dom (arrObjs w)) in (Ok l, with_arrObjs (insert l xs) w).

(** [[...tools]]: a fresh array with the elements of [tools]. *)
Definition spread (la : loc) : M loc :=
  λ w, newArray (arrAt w la) w.

(** In-place assignment to an array object ([a.push(x)], [a.length = 0],
    [a[i] = x], ...), as any holder of the reference may do. *)
Definition writeArray (la : loc) (xs : list ToolInfo) : M unit :=
  λ w, (Ok (), with_arrObjs (insert la xs) w).

(** *** Maps *)

(** [new Map(entries)]: later entries override earlier ones. *)
Definition newMap (entries : list (string * loc)) : M loc :=
  λ w, let l := fresh (dom (mapObjs w)) in
       let m := foldl (λ m kv, <[kv.1 := kv.2]> m) ∅ entries in
       (Ok l, with_mapObjs (insert l m) w).

(** [new Map(toolMap)]: a fresh map object with the entries of [toolMap]. *)
Definition copyMap (lm : loc) : M loc :=
  λ w, let l := fresh (dom (mapObjs w)) in
       (Ok l, with_mapObjs (insert l (mapAt w lm)) w).

(** [toolMap.has(k)] *)
Definition mapHas (lm : loc) (k : string) : M bool :=
  λ w, (Ok (bool_decide (is_Some (mapAt w lm !! k))), w).

(** [toolMap.get(k)], with [None] for [undefined] *)
Definition mapGet (lm : loc) (k : string) : M (option loc) :=
  λ w, (Ok (mapAt w lm !! k), w).

(** [m.set(k, v)]: mutates the map object [lm] in place. *)
Definition mapSet (lm : loc) (k : string) (v : loc) : M unit :=
  λ w, (Ok (), with_mapObjs (insert lm (<[k := v]> (mapAt w lm))) w).

(** [m.delete(k)]: mutates the map object [lm] in place. *)
Definition mapDelete (lm : loc) (k : string) : M unit :=
  λ w, (Ok (), with_mapObjs (insert lm (delete k (mapAt w lm))) w).

(** *** Closure-captured variables *)

(** [let x = v], where [x] is later assigned from inside a closure. *)
Definition newVar (v : loc) : M loc :=
  λ w, let l := fresh (dom (letVars w)) in (Ok l, with_letVars (insert l v) w).

Definition setVar (x : loc) (v : loc) : M unit :=
  λ w, (Ok (), with_letVars (insert x v) w).

Definition getVar (x : loc) : M loc :=
  λ w, (Ok (default x (letVars w !! x)), w).

(** *** Caller-supplied functions

    A function a caller hands to the cache receives a reference and
    returns one; it runs on the store like any other code, so it may
    allocate, mutate what it can reach, and throw.  The cache's methods
    below take such a function as a [loc → M loc].

    [callToolsFn f] and [callOrgsFn f] are the functions of one common
    kind: they read the object they are handed, compute [f] of its
    contents, and return the result in a newly built object, or throw
    what [f] throws, touching nothing else.  [tools => [...tools, x]] is
    one. *)

(** [throw e] *)
Definition throw {A} (e : Error) : M A := λ w, (Throw e, w).

(** [tools => f(tools)], for an [f] that builds its result in a new array *)
Definition callToolsFn (f : list ToolInfo → Exc (list ToolInfo)) (arg : loc) : M loc :=
  λ w, match f (arrAt w arg) with
       | Ok xs => newArray xs w
       | Throw e => (Throw e, w)
       end.

(** [orgs => f(orgs)], for an [f] that builds its result in a new set *)
Definition callOrgsFn (f : gset string → Exc (gset string)) (arg : loc) : M loc :=
  λ w, match f (setAt w arg) with
       | Ok s => newSet s w
       | Throw e => (Throw e, w)
       end.

(** [tools => { tools.push(x); return tools }]: fills the array it is
    handed and returns that same array. *)
Definition pushInPlace (x : ToolInfo) (arg : loc) : M loc :=
  λ w, (Ok arg, with_arrObjs (insert arg (arrAt w arg ++ [x])) w).

(** [tools => { tools.push(x); throw e }] *)
Definition pushThenThrow (x : ToolInfo) (e : Error) (arg : loc) : M loc :=
  λ w, (Throw e, with_arrObjs (insert arg (arrAt w arg ++ [x])) w).

(** [_ => { shared.push(x); return shared }], for an array [shared] the
    caller got hold of earlier. *)
Definition pushOnto (shared : loc) (x : ToolInfo) (_ : loc) : M loc :=
  λ w, (Ok shared, with_arrObjs (insert shared (arrAt w shared ++ [x])) w).

(** [m => { m.delete(k); throw e }] *)
Definition deleteThenThrow (k : string) (e : Error) (m : loc) : M loc :=
  do mapDelete m k then throw e.

(** ** The Cache class *)

(** The value a [Cache] object binds to a key, and the object with one
    binding replaced. *)
Definition field (c : CacheObj) (key : Key) : loc :=
  match key with
  | KallowedOrgs => allowedOrgs c
  | Ktools => tools c
  end.

Definition with_field (c : CacheObj) (key : Key) (value : loc) : CacheObj :=
  match key with
  | KallowedOrgs => mkCache value (tools c)
  | Ktools => mkCache (allowedOrgs c) value
  end.

(** [cache.get(key)] (line 94) *)
Definition cache_get (cache : loc) (key : Key) : M loc :=
  λ w, (Ok (field (cacheAt w cache) key), w).

(** [cache.set(key, value)], inherited from [Map] *)
Definition cache_set (cache : loc) (key : Key) (value : loc) : M unit :=
  λ w, (Ok (), with_cacheObjs (insert cache (with_field (cacheAt w cache) key value)) w).

Definition DEFAULT_TOOL_SESSION_ID : string := "default".

(** [initialize] (lines 98-101): binds 'allowedOrgs' to a new empty set and
    'tools' to a new map with the single entry
    [DEFAULT_TOOL_SESSION_ID ↦ []]. *)
Definition initialize (this : loc) : M unit :=
  let* orgs := newSet ∅ in
  do cache_set this KallowedOrgs orgs then
  let* arr := newArray [] in
  let* toolMap := newMap [(DEFAULT_TOOL_SESSION_ID, arr)] in
  cache_set this Ktools toolMap.

(** [new Cache()] (lines 41-44): [super()] makes the object, [initialize]
    gives it its two bindings. *)
Definition newCache : M loc :=
  λ w, let this := fresh (dom (cacheObjs w)) in
       (do initialize this then ret this) w.

(** [Cache.instance ??= new Cache()] (line 53) *)
Definition getInstance : M loc :=
  λ w, match instance w with
       | Some cache => (Ok cache, w)
       | None =>
           (let* cache := newCache in
            λ w', (Ok cache, with_instance (Some cache) w')) w
       end.

(** Modelled from the spec: [Mutex.lock] of @salesforce/core, which is not
    part of this repository.  The gate runs the function it is given as one
    uninterrupted unit, hands its result (or the error it throws) to the
    caller, and is released on every exit path.  A call that is awaited
    before the next one is issued finds the gate free, so for such a call
    [lock fn] is [fn]; concurrent calls are treated further below. *)
Definition lock {A} (fn : M A) : M A := fn.

(** The function [safeUpdate] passes to the gate (lines 66-71). *)
Definition safeUpdate_section (cache : loc) (key : Key) (updateFn : loc → M loc) : M loc :=
  let* currentValue := cache_get cache key in
  let* newValue := updateFn currentValue in
  do cache_set cache key newValue then
  ret newValue.

Definition safeUpdate (key : Key) (updateFn : loc → M loc) : M loc :=
  let* cache := getInstance in
  lock (safeUpdate_section cache key updateFn).

Definition safeGet (key : Key) : M loc :=
  let* cache := getInstance in
  lock (cache_get cache key).

Definition safeSet (key : Key) (value : loc) : M unit :=
  let* cache := getInstance in
  lock (cache_set cache key value).

(** [sessionId ?? Cache.DEFAULT_TOOL_SESSION_ID]; [None] is [undefined],
    that is, an omitted argument. *)
Definition resolveToolSessionId (sessionId : option string) : string :=
  match sessionId with
  | Some s => s
  | None => DEFAULT_TOOL_SESSION_ID
  end.

Definition ensureToolSession_fn (resolvedSessionId : string) (toolMap : loc) : M loc :=
  let* present := mapHas toolMap resolvedSessionId in
  if present then ret toolMap
  else
    let* updated := copyMap toolMap in
    let* arr := newArray [] in
    do mapSet updated resolvedSessionId arr then
    ret updated.

Definition ensureToolSession (sessionId : option string) : M unit :=
  let resolvedSessionId := resolveToolSessionId sessionId in
  do safeUpdate Ktools (ensureToolSession_fn resolvedSessionId) then
  ret ().

Definition resetToolsForSession_fn (resolvedSessionId : string) (toolMap : loc) : M loc :=
  let* updated := copyMap toolMap in
  let* arr := newArray [] in
  do mapSet updated resolvedSessionId arr then
  ret updated.

Definition resetToolsForSession (sessionId : option string) : M unit :=
  let resolvedSessionId := resolveToolSessionId sessionId in
  do safeUpdate Ktools (resetToolsForSession_fn resolvedSessionId) then
  ret ().

Definition deleteToolSession_fn (resolvedSessionId : string) (toolMap : loc) : M loc :=
  let* present := mapHas toolMap resolvedSessionId in
  if negb present then ret toolMap
  else
    let* updated := copyMap toolMap in
    do mapDelete updated resolvedSessionId then
    ret updated.

Definition deleteToolSession (sessionId : option string) : M unit :=
  let resolvedSessionId := resolveToolSessionId sessionId in
  do safeUpdate Ktools (deleteToolSession_fn resolvedSessionId) then
  ret ().

(** [toolMap.get(id) ?? []] *)
Definition getOrEmpty (toolMap : loc) (id : string) : M loc :=
  let* found := mapGet toolMap id in
  match found with
  | Some arr => ret arr
  | None => newArray []
  end.

Definition getToolsForSession (sessionId : option string) : M loc :=
  let resolvedSessionId := resolveToolSessionId sessionId in
  let* toolMap := safeGet Ktools in
  let* tools := getOrEmpty toolMap resolvedSessionId in
  spread tools.

Definition updateToolsForSession_fn (resolvedSessionId : string)
    (updateFn : loc → M loc) (updatedTools : loc)
    (toolMap : loc) : M loc :=
  let* existingTools := getOrEmpty toolMap resolvedSessionId in
  let* copy := spread existingTools in
  let* result := updateFn copy in
  do setVar updatedTools result then
  let* updatedMap := copyMap toolMap in
  do mapSet updatedMap resolvedSessionId result then
  ret updatedMap.

Definition updateToolsForSession (sessionId : option string)
    (updateFn : loc → M loc) : M loc :=
  let resolvedSessionId := resolveToolSessionId sessionId in
  let* empty := newArray [] in
  let* updatedTools := newVar empty in
  do safeUpdate Ktools (updateToolsForSession_fn resolvedSessionId updateFn updatedTools) then
  getVar updatedTools.

(** ** Calls in flight

    An [async] method runs synchronously up to its first suspension.  For
    [updateToolsForSession] that is the evaluation of
    [Cache.safeUpdate('tools', ...)] up to [Cache.mutex.lock(...)] (lines
    153-156 and 64-66): the session id is resolved, [updatedTools] is
    initialised, the singleton is fetched, and the function of lines 66-71
    is handed to the gate.  Issuing the call yields that function. *)
Definition updateToolsForSession_issue (sessionId : option string)
    (updateFn : loc → M loc) : M (M loc) :=
  let resolvedSessionId := resolveToolSessionId sessionId in
  let* empty := newArray [] in
  let* updatedTools := newVar empty in
  let* cache := getInstance in
  ret (safeUpdate_section cache Ktools
         (updateToolsForSession_fn resolvedSessionId updateFn updatedTools)).

(** [tools => [...tools, newItem]] *)
Definition appendItem (newItem : ToolInfo) : list ToolInfo → Exc (list ToolInfo) :=
  λ tools, Ok (tools ++ [newItem]).

(** The process while calls are in flight: the store, the functions
    waiting at the gate, and the calls not issued yet. *)
Record Config := mkConfig {
  store : World;
  waiting : list (M loc);
  unissued : list (M (M loc))
}.

Inductive Event :=
  | Issue             (* the next call is issued *)
  | Grant (i : nat).  (* the gate runs the [i]-th waiting function *)

(** Modelled from the spec: the scheduling of [Mutex.lock] of
    @salesforce/core, which is not part of this repository.  Tasks are
    cooperative; the gate runs one waiting function at a time, each as a
    single uninterrupted unit, and a function leaves the waiting list when
    it has run.  The spec has the gate serve its waiters in arrival order,
    which is [Grant 0] every time; any other order is allowed here too. *)
Definition step (ev : Event) (cfg : Config) : option Config :=
  match ev with
  | Issue =>
      match unissued cfg with
      | [] => None
      | call :: rest =>
          match call (store cfg) with
          | (Ok fn, w') => Some (mkConfig w' (waiting cfg ++ [fn]) rest)
          | (Throw _, w') => Some (mkConfig w' (waiting cfg) rest)
          end
      end
  | Grant i =>
      match waiting cfg !! i with
      | None => None
      | Some fn => Some (mkConfig (fn (store cfg)).2 (delete i (waiting cfg)) (unissued cfg))
      end
  end.

Fixpoint run (evs : list Event) (cfg : Config) : option Config :=
  match evs with
  | [] => Some cfg
  | ev :: evs' =>
      match step ev cfg with
      | Some cfg' => run evs' cfg'
      | None => None
      end
  end.

(** All calls have been issued and have gone through the gate. *)
Definition settled (cfg : Config) : bool :=
  bool_decide (length (waiting cfg) = 0) && bool_decide (length (unissued cfg) = 0).

(** [N] calls issued at once and served in arrival order. *)
Definition fifo (n : nat) : list Event := replicate n Issue ++ replicate n (Grant 0).

(** [N] calls [updateToolsForSession(sid, tools => [...tools, item])], one
    per item, none of them issued yet. *)
Definition launch (sessionId : option string) (items : list ToolInfo) (w : World) : Config :=
  mkConfig w []
    ((λ item, updateToolsForSession_issue sessionId (callToolsFn (appendItem item))) <$> items).

(** ** Sequences of tool-session calls *)

(** A call of one of the four operations, with any update function. *)
Inductive SessionCall :=
  | Ensure (sessionId : option string)
  | Reset (sessionId : option string)
  | Delete (sessionId : option string)
  | Update (sessionId : option string) (updateFn : loc → M loc).

(** The store after a call has been awaited, whether it resolved or rejected. *)
Definition performCall (call : SessionCall) (w : World) : World :=
  match call with
  | Ensure sid => (ensureToolSession sid w).2
  | Reset sid => (resetToolsForSession sid w).2
  | Delete sid => (deleteToolSession sid w).2
  | Update sid updateFn => (updateToolsForSession sid updateFn w).2
  end.

Definition performCalls (calls : list SessionCall) (w : World) : World :=
  foldl (λ w call, performCall call w) w calls.

(** The calls whose update function is [tools => f(tools)] for an [f]
    that builds its result in a new array. *)
Inductive ToolCall :=
  | CallEnsure (sessionId : option string)
  | CallReset (sessionId : option string)
  | CallDelete (sessionId : option string)
  | CallUpdate (sessionId : option string) (updateFn : list ToolInfo → Exc (list ToolInfo)).

(** The store after a call has been awaited, whether it resolved or rejected. *)
Definition perform (call : ToolCall) (w : World) : World :=
  match call with
  | CallEnsure sid => (ensureToolSession sid w).2
  | CallReset sid => (resetToolsForSession sid w).2
  | CallDelete sid => (deleteToolSession sid w).2
  | CallUpdate sid f => (updateToolsForSession sid (callToolsFn f) w).2
  end.

Definition performAll (calls : list ToolCall) (w : World) : World :=
  foldl (λ w call, perform call w) w calls.

End cache.

Arguments Ok {Error A} a.
Arguments Throw {Error A} e.
Arguments World : clear implicits.
Arguments M : clear implicits.
Arguments Exc : clear implicits.
Arguments Config : clear implicits.
Arguments ToolCall : clear implicits.
Arguments SessionCall : clear implicits.

(** ** Concrete stores and functions, used to exercise the statements below *)

(** A cache with session ["a"] holding one tool, next to the default session. *)
Definition exampleStore : World nat :=
  performAll (Error:=string)
    [CallEnsure (Some "a"); CallUpdate (Some "a") (appendItem 7)] emptyWorld.

Definition exampleCalls : list (ToolCall nat string) :=
  [CallUpdate (Some "a") (appendItem 8); CallDelete (Some "a");
   CallReset None; CallEnsure (Some "b"); CallUpdate None (λ _, Throw "boom")].

Definition exampleSessionCalls : list (SessionCall nat string) :=
  [Update (Some "a") (pushInPlace 8); Delete (Some "a"); Reset None;
   Ensure (Some "b"); Update None (callToolsFn (λ _, Throw "boom"));
   Update (Some "b") (pushThenThrow 9 "boom")].

(** Three calls: two are issued, the second is served, the third is issued,
    then the third and the first are served. *)
Definition exampleSchedule : list Event := [Issue; Issue; Grant 1; Issue; Grant 1; Grant 0].

Definition failingOrgsFn : gset string → Exc string (gset string) := λ _, Throw "boom".
Definition failingToolsFn : list nat → Exc string (list nat) := λ _, Throw "boom".

(** * Properties *)

Section properties.
Context {ToolInfo Error : Type}.
Implicit Types (w : World ToolInfo) (l la lm lc : loc) (sid : option string).

Local Abbreviation M := (M ToolInfo Error).
Local Abbreviation Exc := (Exc Error).

(** ** Observations *)

(** The deep contents of a map object: its keys and the sequence held by
    the array bound to each key. *)
Definition snapshot w lm : gmap string (list ToolInfo) := arrAt w <$> mapAt w lm.

(** The singleton, when it exists. *)
Definition theCache w : option CacheObj := instance w ≫= λ lc, cacheObjs w !! lc.

(** The reference bound to a key of the singleton. *)
Definition entry w (key : Key) : option loc := (λ c, field c key) <$> theCache w.

(** What the cache holds: the allowed orgs and the tools of every session. *)
Definition orgs w : gset string := from_option (λ c, setAt w (allowedOrgs c)) ∅ (theCache w).
Definition sessions w : gmap string (list ToolInfo) :=
  from_option (λ c, snapshot w (tools c)) ∅ (theCache w).

(** What [getToolsForSession] reads for a session. *)
Definition toolsOf w (id : string) : list ToolInfo := default [] (sessions w !! id).

(** ** Well-formed stores: no reference dangles *)

Definition cache_ok w (c : CacheObj) : Prop :=
  allowedOrgs c ∈ dom (setObjs w) ∧ tools c ∈ dom (mapObjs w).

Definition map_ok w (m : gmap string loc) : Prop :=
  map_Forall (λ _ la, la ∈ dom (arrObjs w)) m.

Definition closed w : Prop :=
  map_Forall (λ _ c, cache_ok w c) (cacheObjs w)
  ∧ map_Forall (λ _ m, map_ok w m) (mapObjs w)
  ∧ match instance w with Some lc => lc ∈ dom (cacheObjs w) | None => True end.

(** A closed store in which the singleton exists. *)
Definition wf w : Prop := closed w ∧ is_Some (instance w).

(** Every object of [w] is still there, unchanged, in [w']. *)
Definition grows w w' : Prop :=
  setObjs w ⊆ setObjs w' ∧ mapObjs w ⊆ mapObjs w' ∧ arrObjs w ⊆ arrObjs w'.

(** ** Decision procedures *)

Global Instance closed_dec w : Decision (closed w).
Proof. rw /closed /cache_ok /map_ok. destruct (instance w); apply _. Defined.

Global Instance wf_dec w : Decision (wf w).
Proof. rw /wf. apply _. Defined.

(** ** Specifications used in the proofs *)

(** What a function handed to [safeUpdate('tools', ...)] must respect for
    the store to stay closed. *)
Definition tools_fn_ok (fn : loc → M loc) : Prop :=
  ∀ cur w, closed w → cur ∈ dom (mapObjs w) →
    closed (fn cur w).2
    ∧ instance (fn cur w).2 = instance w
    ∧ cacheObjs (fn cur w).2 = cacheObjs w
    ∧ setObjs (fn cur w).2 = setObjs w
    ∧ ∀ new, (fn cur w).1 = Ok new → new ∈ dom (mapObjs (fn cur w).2).

(** A caller-supplied update function that modifies no object that
    existed before it was called, the array it is handed aside: every
    set, map and array of the store it starts from is unchanged when it
    returns or throws (it may fill the array it is handed and may
    allocate new objects), the cache object and [Cache.instance] are
    untouched, what it returns is an array, and no reference dangles. *)
Definition respects (updateFn : loc → M loc) : Prop :=
  ∀ arg w, closed w → arg ∈ dom (arrObjs w) →
    closed (updateFn arg w).2
    ∧ setObjs w ⊆ setObjs (updateFn arg w).2
    ∧ mapObjs w ⊆ mapObjs (updateFn arg w).2
    ∧ delete arg (arrObjs w) ⊆ arrObjs (updateFn arg w).2
    ∧ cacheObjs (updateFn arg w).2 = cacheObjs w
    ∧ instance (updateFn arg w).2 = instance w
    ∧ ∀ result, (updateFn arg w).1 = Ok result → result ∈ dom (arrObjs (updateFn arg w).2).

Definition call_respects (call : SessionCall ToolInfo Error) : Prop :=
  match call with
  | Update _ updateFn => respects updateFn
  | _ => True
  end.

(** The function a call for [item] left at the gate, given the variable
    [updatedTools] and the cache it captured. *)
Definition pendingFn (rsid : string) (p : ToolInfo * loc * loc) : M loc :=
  safeUpdate_section p.2 Ktools (updateToolsForSession_fn rsid (callToolsFn (appendItem p.1.1)) p.1.2).

(** The invariant of [launch sid items w] while its calls are in flight:
    the session holds what it held at the start followed by the items
    already served; every other item is waiting at the gate or not issued
    yet. *)
Definition in_flight (sid : option string) (items base : list ToolInfo)
    (cfg : Config ToolInfo Error) : Prop :=
  ∃ pend rest served,
    waiting cfg = pendingFn (resolveToolSessionId sid) <$> pend
    ∧ unissued cfg = (λ item, updateToolsForSession_issue sid (callToolsFn (appendItem item))) <$> rest
    ∧ Forall (λ p, instance (store cfg) = Some p.2) pend
    ∧ closed (store cfg)
    ∧ toolsOf (store cfg) (resolveToolSessionId sid) = base ++ served
    ∧ served ++ ((λ p, p.1.1) <$> pend) ++ rest ≡ₚ items.

(** ** Tactics *)

Local Arguments fresh : simpl never.
Local Arguments dom : simpl never.

Ltac unfold_obs :=
  rw /sessions /orgs /entry /theCache /snapshot /mapAt /arrAt /setAt /cacheAt
    /with_setObjs /with_mapObjs /with_arrObjs /with_letVars /with_cacheObjs /with_instance /=.

Ltac unfold_ops :=
  rw /updateToolsForSession /getToolsForSession /deleteToolSession
    /resetToolsForSession /ensureToolSession /updateToolsForSession_fn
    /deleteToolSession_fn /resetToolsForSession_fn /ensureToolSession_fn
    /getOrEmpty /safeSet /safeGet /safeUpdate /safeUpdate_section /lock
    /getInstance /newCache /initialize /cache_set /cache_get /with_field /field /callOrgsFn /callToolsFn
    /getVar /setVar /newVar /mapDelete /mapSet /mapGet /mapHas /copyMap
    /newMap /writeArray /spread /newArray /newSet /bind /ret.

(** ** Basic facts *)

Lemma theCache_Some w c :
  theCache w = Some c ↔ ∃ lc, instance w = Some lc ∧ cacheObjs w !! lc = Some c.
Proof.
  rw /theCache. destruct (instance w) as [lc|]; simpl; split.
  - eauto.
  - by intros (? & [= ->] & ?).
  - done.
  - by intros (? & ? & ?).
Qed.

Lemma CacheObj_eta c : mkCache (allowedOrgs c) (tools c) = c.
Proof. by destruct c. Qed.

Lemma World_eq w w' :
  setObjs w = setObjs w' → mapObjs w = mapObjs w' → arrObjs w = arrObjs w' →
  letVars w = letVars w' → cacheObjs w = cacheObjs w' → instance w = instance w' →
  w = w'.
Proof. destruct w, w'; simpl; congruence. Qed.

(** *** The singleton *)

Lemma getInstance_live w lc :
  instance w = Some lc → getInstance (Error:=Error) w = (Ok lc, w).
Proof. intros Hi. by rw /getInstance Hi. Qed.

Lemma getInstance_idem w :
  ∃ lc w0, getInstance (Error:=Error) w = (Ok lc, w0)
           ∧ getInstance (Error:=Error) w0 = (Ok lc, w0)
           ∧ instance w0 = Some lc.
Proof.
  destruct (instance w) as [lc|] eqn:Hi.
  - exists lc, w. by rw (getInstance_live w lc Hi).
  - unfold_ops. rw Hi /=. eexists _, _. split; [reflexivity|]. done.
Qed.

Lemma bind_getInstance {A} (k : loc → M A) w :
  bind getInstance k w = bind getInstance k (getInstance (Error:=Error) w).2.
Proof.
  destruct (getInstance_idem w) as (lc & w0 & Hg & Hg0 & _).
  by rw /bind Hg /= Hg0.
Qed.

(** *** Reading *)

Lemma getTools_spec sid w c :
  theCache w = Some c →
  ∃ la w', getToolsForSession (Error:=Error) sid w = (Ok la, w')
    ∧ arrAt w' la = default [] (sessions w !! resolveToolSessionId sid)
    ∧ (la ∉ dom (arrObjs w))
    ∧ arrObjs w ⊆ arrObjs w'
    ∧ setObjs w' = setObjs w ∧ mapObjs w' = mapObjs w ∧ letVars w' = letVars w
    ∧ cacheObjs w' = cacheObjs w ∧ instance w' = instance w.
Proof.
  intros (lc & Hi & Hc)%theCache_Some.
  unfold_ops. rw Hi /=. unfold_obs. rw Hi /= Hc /= lookup_fmap.
  destruct (default ∅ (mapObjs w !! tools c) !! resolveToolSessionId sid) as [la|] eqn:Hla; simpl;
    (eexists _, _; split; [reflexivity|]); simpl; simplify_map_eq.
  - split; [done|]. split; [apply is_fresh|]. split; [|done].
    apply insert_subseteq, not_elem_of_dom, is_fresh.
  - split; [done|]. split.
    { intros Hin. apply (is_fresh (dom (<[fresh (dom (arrObjs w)):=[]]> (arrObjs w)))).
      set_solver. }
    split; [|done].
    etrans; [|apply insert_subseteq, not_elem_of_dom, is_fresh].
    apply insert_subseteq, not_elem_of_dom, is_fresh.
Qed.

(** *** Ensuring a session *)

Lemma ensure_present sid w c :
  theCache w = Some c →
  is_Some (mapAt w (tools c) !! resolveToolSessionId sid) →
  ensureToolSession (Error:=Error) sid w = (Ok (), w).
Proof.
  intros (lc & Hi & Hc)%theCache_Some Hp.
  unfold_ops. rw Hi /=. rw /cacheAt Hc /=. rw bool_decide_eq_true_2 //=.
  f_equal. apply World_eq; try done. simpl.
  by rw ?Hc /= CacheObj_eta insert_id.
Qed.

Lemma ensure_creates sid w :
  ∃ w' c', ensureToolSession (Error:=Error) sid w = (Ok (), w')
    ∧ theCache w' = Some c'
    ∧ is_Some (mapAt w' (tools c') !! resolveToolSessionId sid).
Proof.
  rw /ensureToolSession /safeUpdate /bind -/(bind getInstance _ w) bind_getInstance.
  destruct (getInstance_idem w) as (lc & w0 & -> & Hg0 & Hi). simpl. clear w.
  rw /bind Hg0. unfold_ops. unfold_obs.
  case_bool_decide as Hp; simpl;
    (eexists _, _; split; [reflexivity|]); simpl; rw ?Hi /=; simplify_map_eq;
    (split; [done|]); simplify_map_eq; done.
Qed.

Lemma ensure_absent sid w c :
  theCache w = Some c →
  mapAt w (tools c) !! resolveToolSessionId sid = None →
  ∃ w', ensureToolSession (Error:=Error) sid w = (Ok (), w')
    ∧ is_Some (theCache w')
    ∧ sessions w' !! resolveToolSessionId sid = Some [].
Proof.
  intros (lc & Hi & Hc)%theCache_Some Ha.
  unfold_ops. rw Hi /=. rw /cacheAt Hc /=.
  rw bool_decide_eq_false_2; [by rw Ha; intros [? ?]|]. simpl.
  eexists. split; [reflexivity|]. unfold_obs. rw Hi /=. simplify_map_eq. done.
Qed.

(** *** Deleting a session *)

Lemma delete_absent sid w c :
  theCache w = Some c →
  mapAt w (tools c) !! resolveToolSessionId sid = None →
  deleteToolSession (Error:=Error) sid w = (Ok (), w).
Proof.
  intros (lc & Hi & Hc)%theCache_Some Ha.
  unfold_ops. rw Hi /=. rw /cacheAt Hc /=.
  rw bool_decide_eq_false_2; [by rw Ha; intros [? ?]|]. simpl.
  f_equal. apply World_eq; try done. simpl.
  by rw ?Hc /= CacheObj_eta insert_id.
Qed.

Lemma delete_removes sid w :
  ∃ w' c', deleteToolSession (Error:=Error) sid w = (Ok (), w')
    ∧ theCache w' = Some c'
    ∧ mapAt w' (tools c') !! resolveToolSessionId sid = None.
Proof.
  rw /deleteToolSession /safeUpdate /bind -/(bind getInstance _ w) bind_getInstance.
  destruct (getInstance_idem w) as (lc & w0 & -> & Hg0 & Hi). simpl. clear w.
  rw /bind Hg0. unfold_ops. unfold_obs.
  case_bool_decide as Hp; simpl;
    (eexists _, _; split; [reflexivity|]); simpl; rw ?Hi /=; simplify_map_eq;
    (split; [done|]); simplify_map_eq; try done.
  by apply eq_None_not_Some.
Qed.

Lemma sessions_lookup w c k :
  theCache w = Some c →
  sessions w !! k = arrAt w <$> (mapAt w (tools c) !! k).
Proof. intros Hc. by rw /sessions Hc /= /snapshot lookup_fmap. Qed.

Lemma reset_binds_empty sid w :
  ∃ w', resetToolsForSession (Error:=Error) sid w = (Ok (), w')
        ∧ is_Some (theCache w')
        ∧ sessions w' !! resolveToolSessionId sid = Some [].
Proof.
  rw /resetToolsForSession /safeUpdate /bind -/(bind getInstance _ w) bind_getInstance.
  destruct (getInstance_idem w) as (lc & w0 & -> & Hg0 & Hi). simpl. clear w.
  rw /bind Hg0. unfold_ops. unfold_obs.
  eexists; split; [reflexivity|]. simpl. rw ?Hi /=. simplify_map_eq. done.
Qed.

(** ** Objects are never overwritten *)

Lemma fresh_sub {V} (m m' : gmap loc V) x :
  m ⊆ m' → m ⊆ <[fresh (dom m') := x]> m'.
Proof.
  intros Hs. etrans; [exact Hs|]. apply insert_subseteq, not_elem_of_dom, is_fresh.
Qed.

Ltac solve_sub :=
  repeat (rw ?insert_insert_eq; first [reflexivity | apply fresh_sub]).

Ltac solve_grows := unfold_obs; repeat split; simpl; solve_sub.

Global Instance grows_refl : Reflexive grows.
Proof. by intros w. Qed.

Global Instance grows_trans : Transitive grows.
Proof.
  intros w1 w2 w3 (? & ? & ?) (? & ? & ?). repeat split; by etrans.
Qed.

Lemma bind_grows {A B} (c : M A) (k : A → M B) w :
  grows w (c w).2 → (∀ a w', grows w' (k a w').2) → grows w (bind c k w).2.
Proof.
  intros Hc Hk. rw /bind. destruct (c w) as [[a|e] w'] eqn:Hcw; simpl in *.
  - etrans; [exact Hc|]. apply Hk.
  - done.
Qed.

Lemma getInstance_grows w : grows w (getInstance (Error:=Error) w).2.
Proof. unfold_ops. destruct (instance w); solve_grows. Qed.

Lemma cache_get_grows cache key w : grows w (cache_get (Error:=Error) cache key w).2.
Proof. done. Qed.

Lemma cache_set_grows cache key v w : grows w (cache_set (Error:=Error) cache key v w).2.
Proof. done. Qed.

Lemma safeUpdate_grows key (fn : loc → M loc) w :
  (∀ cur w0, grows w0 (fn cur w0).2) → grows w (safeUpdate key fn w).2.
Proof.
  intros Hfn. rw /safeUpdate /lock /safeUpdate_section.
  apply bind_grows; [apply getInstance_grows|]. intros cache w1.
  apply bind_grows; [apply cache_get_grows|]. intros cur w2.
  apply bind_grows; [apply Hfn|]. intros new w3.
  apply bind_grows; [apply cache_set_grows|]. done.
Qed.

Lemma ensure_fn_grows rsid toolMap w :
  grows w (ensureToolSession_fn (Error:=Error) rsid toolMap w).2.
Proof. unfold_ops. case_bool_decide; solve_grows. Qed.

Lemma reset_fn_grows rsid toolMap w :
  grows w (resetToolsForSession_fn (Error:=Error) rsid toolMap w).2.
Proof. unfold_ops. solve_grows. Qed.

Lemma delete_fn_grows rsid toolMap w :
  grows w (deleteToolSession_fn (Error:=Error) rsid toolMap w).2.
Proof. unfold_ops. case_bool_decide; solve_grows. Qed.

Lemma update_fn_grows rsid (f : list ToolInfo → Exc (list ToolInfo)) updatedTools toolMap w :
  grows w (updateToolsForSession_fn rsid (callToolsFn f) updatedTools toolMap w).2.
Proof.
  unfold_ops. unfold_obs.
  destruct (default ∅ (mapObjs w !! toolMap) !! rsid) as [la|]; simpl;
    destruct (f _); solve_grows.
Qed.

Lemma ensure_grows sid w : grows w (ensureToolSession (Error:=Error) sid w).2.
Proof.
  rw /ensureToolSession. apply bind_grows; [|done].
  apply safeUpdate_grows, ensure_fn_grows.
Qed.

Lemma reset_grows sid w : grows w (resetToolsForSession (Error:=Error) sid w).2.
Proof.
  rw /resetToolsForSession. apply bind_grows; [|done].
  apply safeUpdate_grows, reset_fn_grows.
Qed.

Lemma delete_grows sid w : grows w (deleteToolSession (Error:=Error) sid w).2.
Proof.
  rw /deleteToolSession. apply bind_grows; [|done].
  apply safeUpdate_grows, delete_fn_grows.
Qed.

Lemma update_grows sid (f : list ToolInfo → Exc (list ToolInfo)) w :
  grows w (updateToolsForSession sid (callToolsFn f) w).2.
Proof.
  rw /updateToolsForSession.
  apply bind_grows; [rw /newArray; solve_grows|]. intros empty w1.
  apply bind_grows; [done|]. intros updatedTools w2.
  apply bind_grows; [|done].
  apply safeUpdate_grows, update_fn_grows.
Qed.

(** ** Well-formed stores *)

Lemma closed_emptyWorld : closed (emptyWorld (ToolInfo:=ToolInfo)).
Proof. split; [|split]; [apply map_Forall_empty..|done]. Qed.

Lemma grows_dom w w' :
  grows w w' →
  dom (setObjs w) ⊆ dom (setObjs w') ∧ dom (mapObjs w) ⊆ dom (mapObjs w')
  ∧ dom (arrObjs w) ⊆ dom (arrObjs w').
Proof. intros (? & ? & ?). repeat split; by apply subseteq_dom. Qed.

Lemma cache_ok_grows w w' c : grows w w' → cache_ok w c → cache_ok w' c.
Proof. intros (? & ? & ?)%grows_dom [? ?]. split; set_solver. Qed.

Lemma map_ok_grows w w' m : grows w w' → map_ok w m → map_ok w' m.
Proof.
  intros (? & ? & ?)%grows_dom Hm. eapply map_Forall_impl; [exact Hm|].
  intros ? ? ?. set_solver.
Qed.

(** A store that grew stays closed if the objects it gained are closed. *)
Lemma closed_grows w w' :
  closed w → grows w w' →
  (∀ l c, cacheObjs w' !! l = Some c → cacheObjs w !! l = Some c ∨ cache_ok w' c) →
  (∀ l m, mapObjs w' !! l = Some m → mapObjs w !! l = Some m ∨ map_ok w' m) →
  match instance w' with Some lc => lc ∈ dom (cacheObjs w') | None => True end →
  closed w'.
Proof.
  intros (Hc & Hm & _) Hg Hc' Hm' Hi. split; [|split; [|done]].
  - intros l c [Hold|Hnew]%Hc'; [|done]. eapply cache_ok_grows; [done|]. by eapply Hc.
  - intros l m [Hold|Hnew]%Hm'; [|done]. eapply map_ok_grows; [done|]. by eapply Hm.
Qed.

Lemma wf_theCache w :
  wf w →
  ∃ lc c m, instance w = Some lc ∧ cacheObjs w !! lc = Some c ∧ theCache w = Some c
            ∧ cache_ok w c ∧ mapObjs w !! tools c = Some m ∧ map_ok w m.
Proof.
  intros [(Hc & Hm & Hi) [lc Hlc]]. rw Hlc in Hi.
  apply elem_of_dom in Hi as [c Hcl].
  pose proof (Hc _ _ Hcl) as Hok. destruct Hok as [Ho Ht].
  pose proof Ht as Ht'. apply elem_of_dom in Ht' as [m Hml].
  exists lc, c, m. repeat split; try done.
  - by rw /theCache Hlc.
  - by eapply Hm.
Qed.

(** The contents of a closed map object are the same in any store grown
    from the one it lives in. *)
Lemma snapshot_grows w w' lm m :
  mapObjs w !! lm = Some m → map_ok w m → grows w w' →
  snapshot w' lm = snapshot w lm.
Proof.
  intros Hlm Hm (_ & Hms & Has).
  rw /snapshot /mapAt Hlm (lookup_weaken _ _ _ _ Hlm Hms) /=.
  apply map_eq. intros k. rw !lookup_fmap.
  destruct (m !! k) as [la|] eqn:Hk; [|done]. simpl. f_equal.
  apply Hm in Hk. apply elem_of_dom in Hk as [xs Hxs].
  by rw /arrAt Hxs (lookup_weaken _ _ _ _ Hxs Has).
Qed.

Lemma fmap_arrAt_grows w w' (m : gmap string loc) :
  map_ok w m → grows w w' → arrAt w' <$> m = arrAt w <$> m.
Proof.
  intros Hm (_ & _ & Has). apply map_eq. intros k. rw !lookup_fmap.
  destruct (m !! k) as [la|] eqn:Hk; [|done]. simpl. f_equal.
  apply Hm in Hk. apply elem_of_dom in Hk as [xs Hxs].
  by rw /arrAt Hxs (lookup_weaken _ _ _ _ Hxs Has).
Qed.

Lemma setAt_grows w w' l :
  l ∈ dom (setObjs w) → grows w w' → setAt w' l = setAt w l.
Proof.
  intros [s Hs]%elem_of_dom (Hss & _).
  by rw /setAt Hs (lookup_weaken _ _ _ _ Hs Hss).
Qed.

(** What the cache holds is the same in any store grown from a well-formed
    one in which the singleton's entries are the same. *)
Lemma contents_grows w w' :
  wf w → grows w w' → theCache w' = theCache w →
  sessions w' = sessions w ∧ orgs w' = orgs w.
Proof.
  intros (lc & c & m & Hi & Hc & Htc & [Ho Ht] & Hm & Hmok)%wf_theCache Hg Heq.
  rw /sessions /orgs Heq Htc /=. split.
  - by eapply snapshot_grows.
  - by apply setAt_grows.
Qed.

Lemma map_ok_insert w m k la :
  la ∈ dom (arrObjs w) → map_ok w m → map_ok w (<[k := la]> m).
Proof. intros. by apply map_Forall_insert_2. Qed.

Lemma map_ok_delete w m k : map_ok w m → map_ok w (delete k m).
Proof. apply map_Forall_delete. Qed.

Lemma closed_same_maps w w' :
  closed w → grows w w' → cacheObjs w' = cacheObjs w → instance w' = instance w →
  mapObjs w' = mapObjs w → closed w'.
Proof.
  intros Hcl Hg Hc Hi Hm. apply (closed_grows w w' Hcl Hg).
  - rw Hc. auto.
  - rw Hm. auto.
  - rw Hi Hc. apply Hcl.
Qed.

Lemma closed_new_map w w' l mnew :
  closed w → grows w w' → cacheObjs w' = cacheObjs w → instance w' = instance w →
  mapObjs w' = <[l := mnew]> (mapObjs w) → map_ok w' mnew → closed w'.
Proof.
  intros Hcl Hg Hc Hi Hm Hok. apply (closed_grows w w' Hcl Hg).
  - rw Hc. auto.
  - rw Hm. intros l' m' [[-> <-]|[? ?]]%lookup_insert_Some; auto.
  - rw Hi Hc. apply Hcl.
Qed.

Lemma closed_map_ok w lm m : closed w → mapObjs w !! lm = Some m → map_ok w m.
Proof. intros (_ & Hm & _) Hl. by eapply Hm. Qed.

Lemma fresh_in_insert {V} (m : gmap loc V) x : fresh (dom m) ∈ dom (<[fresh (dom m) := x]> m).
Proof. rw dom_insert_L. set_solver. Qed.

Ltac heap_simpl :=
  repeat (progress (simpl; rw ?lookup_insert_eq ?insert_insert_eq)).

Ltac heap_simpl_with H :=
  heap_simpl; rw ?H; heap_simpl.

Lemma ensure_fn_ok rsid : tools_fn_ok (ensureToolSession_fn (Error:=Error) rsid).
Proof.
  intros cur w Hcl [m Hm]%elem_of_dom.
  pose proof (ensure_fn_grows rsid cur w) as Hg. revert Hg.
  unfold_ops. unfold_obs. heap_simpl_with Hm. case_bool_decide; heap_simpl_with Hm; intros Hg.
  - (split; [|split; [|split; [|split]]]; try done). intros ? [= <-]. by apply elem_of_dom.
  - (split; [|split; [|split; [|split]]]; try done).
    + eapply (closed_new_map w _ _ _ Hcl Hg); [reflexivity..|]. simpl.
      apply map_ok_insert; [apply fresh_in_insert|].
      eapply map_ok_grows; [done|]. by eapply closed_map_ok.
    + intros ? [= <-]. simpl. rw dom_insert_L. set_solver.
Qed.

Lemma reset_fn_ok rsid : tools_fn_ok (resetToolsForSession_fn (Error:=Error) rsid).
Proof.
  intros cur w Hcl [m Hm]%elem_of_dom.
  pose proof (reset_fn_grows rsid cur w) as Hg. revert Hg.
  unfold_ops. unfold_obs. heap_simpl_with Hm. intros Hg.
  (split; [|split; [|split; [|split]]]; try done).
  - eapply (closed_new_map w _ _ _ Hcl Hg); [reflexivity..|]. simpl.
    apply map_ok_insert; [apply fresh_in_insert|].
    eapply map_ok_grows; [done|]. by eapply closed_map_ok.
  - intros ? [= <-]. simpl. rw dom_insert_L. set_solver.
Qed.

Lemma delete_fn_ok rsid : tools_fn_ok (deleteToolSession_fn (Error:=Error) rsid).
Proof.
  intros cur w Hcl [m Hm]%elem_of_dom.
  pose proof (delete_fn_grows rsid cur w) as Hg. revert Hg.
  unfold_ops. unfold_obs. heap_simpl_with Hm. case_bool_decide; heap_simpl_with Hm; intros Hg.
  - (split; [|split; [|split; [|split]]]; try done).
    + eapply (closed_new_map w _ _ _ Hcl Hg); [reflexivity..|]. simpl.
      apply map_ok_delete. eapply map_ok_grows; [exact Hg|]. by eapply closed_map_ok.
    + intros ? [= <-]. simpl. rw dom_insert_L. set_solver.
  - (split; [|split; [|split; [|split]]]; try done). intros ? [= <-]. by apply elem_of_dom.
Qed.

Lemma update_fn_ok rsid (f : list ToolInfo → Exc (list ToolInfo)) updatedTools :
  tools_fn_ok (updateToolsForSession_fn rsid (callToolsFn f) updatedTools).
Proof.
  intros cur w Hcl [m Hm]%elem_of_dom.
  pose proof (update_fn_grows rsid f updatedTools cur w) as Hg. revert Hg.
  unfold_ops. unfold_obs. heap_simpl_with Hm.
  destruct (m !! rsid) as [la|]; heap_simpl_with Hm; destruct (f _); heap_simpl_with Hm;
    intros Hg;
    (split; [|split; [|split; [|split]]]; try done);
    try (by eapply (closed_same_maps w _ Hcl Hg)); try (intros ? [= <-]; simpl; (rw dom_insert_L); set_solver).
  - eapply (closed_new_map w _ _ _ Hcl Hg); [reflexivity..|]. simpl.
    apply map_ok_insert; [apply fresh_in_insert|].
    eapply map_ok_grows; [done|]. by eapply closed_map_ok.
  - eapply (closed_new_map w _ _ _ Hcl Hg); [reflexivity..|]. simpl.
    apply map_ok_insert; [apply fresh_in_insert|].
    eapply map_ok_grows; [done|]. by eapply closed_map_ok.
Qed.

(** ** The gate-protected primitives on a store where the singleton exists *)

Lemma safeUpdate_live key (fn : loc → M loc) w lc c :
  instance w = Some lc → cacheObjs w !! lc = Some c →
  safeUpdate key fn w =
    match fn (field c key) w with
    | (Ok new, w1) =>
        (Ok new, with_cacheObjs (insert lc (with_field (cacheAt w1 lc) key new)) w1)
    | (Throw e, w1) => (Throw e, w1)
    end.
Proof.
  intros Hi Hc.
  rw /safeUpdate /lock /safeUpdate_section /bind (getInstance_live w lc Hi).
  rw /cache_get /cache_set /ret /cacheAt Hc /=.
  by destruct (fn (field c key) w) as [[new|e] w1].
Qed.

Lemma safeGet_live key w lc c :
  instance w = Some lc → cacheObjs w !! lc = Some c →
  safeGet (Error:=Error) key w = (Ok (field c key), w).
Proof.
  intros Hi Hc. by rw /safeGet /lock /bind (getInstance_live w lc Hi) /cache_get /cacheAt Hc.
Qed.


Lemma safeUpdate_getInstance key (fn : loc → M loc) w :
  safeUpdate key fn w = safeUpdate key fn (getInstance (Error:=Error) w).2.
Proof. apply bind_getInstance. Qed.

(** ** Well-formedness is an invariant *)

Lemma getInstance_wf w : closed w → wf (getInstance (Error:=Error) w).2.
Proof.
  intros Hcl. pose proof (getInstance_grows w) as Hg. revert Hg.
  rw /getInstance. destruct (instance w) as [lc|] eqn:Hi; simpl.
  { intros _. split; [done|]. by rw Hi. }
  unfold_ops. unfold_obs. heap_simpl. intros Hg. split; [|by eexists].
  apply (closed_grows w _ Hcl Hg); simpl.
  - intros l c [[-> <-]|[? ?]]%lookup_insert_Some; [right|by left].
    split; simpl; rw dom_insert_L; set_solver.
  - intros l m [[-> <-]|[? ?]]%lookup_insert_Some; [right|by left].
    apply map_ok_insert; [|apply map_Forall_empty]. simpl. rw dom_insert_L. set_solver.
  - rw dom_insert_L. set_solver.
Qed.

Lemma safeUpdate_tools_wf (fn : loc → M loc) w :
  tools_fn_ok fn → closed w → wf (safeUpdate Ktools fn w).2.
Proof.
  intros Hfn Hcl.
  rw safeUpdate_getInstance.
  pose proof (getInstance_wf w Hcl) as Hwf.
  destruct (getInstance_idem w) as (lc0 & w0 & Hg & _ & _). rw Hg /= in Hwf |- *. clear w Hcl Hg.
  pose proof Hwf as (lc & c & m & Hi & Hc & _ & [Ho Ht] & Hm & _)%wf_theCache.
  rw (safeUpdate_live Ktools fn w0 lc c Hi Hc) /=.
  destruct (Hfn (tools c) w0 (proj1 Hwf) Ht) as (Hcl1 & Hi1 & Hc1 & _ & Hnew).
  destruct (fn (tools c) w0) as [[new|e] w1]; simpl in *.
  - split; [|by rw Hi1 Hi]. rw /cacheAt Hc1 Hc /=.
    assert (Hok : cache_ok w1 c) by (apply (proj1 Hcl1 lc); by rw Hc1).
    apply (closed_grows w1); [done|done| |auto|]; simpl.
    + intros l c' [[<- <-]|[? ?]]%lookup_insert_Some; [right|by left].
      split; simpl; [apply Hok|by apply Hnew].
    + rw Hi1 Hi dom_insert_L. set_solver.
  - split; [done|]. by rw Hi1 Hi.
Qed.

Lemma bind_wf {A B} (c : M A) (k : A → M B) w :
  wf (c w).2 → (∀ a w', wf w' → wf (k a w').2) → wf (bind c k w).2.
Proof.
  intros Hc Hk. rw /bind. destruct (c w) as [[a|e] w'] eqn:Hcw; simpl in *; auto.
Qed.

Lemma ensure_wf sid w : closed w → wf (ensureToolSession (Error:=Error) sid w).2.
Proof.
  intros Hcl. rw /ensureToolSession. apply bind_wf; [|done].
  by apply safeUpdate_tools_wf; [apply ensure_fn_ok|].
Qed.

Lemma reset_wf sid w : closed w → wf (resetToolsForSession (Error:=Error) sid w).2.
Proof.
  intros Hcl. rw /resetToolsForSession. apply bind_wf; [|done].
  by apply safeUpdate_tools_wf; [apply reset_fn_ok|].
Qed.

Lemma delete_wf sid w : closed w → wf (deleteToolSession (Error:=Error) sid w).2.
Proof.
  intros Hcl. rw /deleteToolSession. apply bind_wf; [|done].
  by apply safeUpdate_tools_wf; [apply delete_fn_ok|].
Qed.

Lemma newArray_closed xs w : closed w → closed (newArray (Error:=Error) xs w).2.
Proof.
  intros Hcl. apply (closed_same_maps w); try done.
  rw /newArray. solve_grows.
Qed.

Lemma update_wf sid (f : list ToolInfo → Exc (list ToolInfo)) w :
  closed w → wf (updateToolsForSession sid (callToolsFn f) w).2.
Proof.
  intros Hcl. rw /updateToolsForSession /bind.
  pose proof (newArray_closed [] w Hcl) as Hcl1.
  destruct (newArray [] w) as [[empty|?] w1] eqn:Hn; [|done]. simpl in Hcl1.
  assert (Hcl2 : closed (newVar (Error:=Error) empty w1).2).
  { by apply (closed_same_maps w1). }
  destruct (newVar empty w1) as [[updatedTools|?] w2] eqn:Hv; [|done]. simpl in Hcl2.
  pose proof (safeUpdate_tools_wf _ w2 (update_fn_ok (resolveToolSessionId sid) f updatedTools) Hcl2) as Hwf.
  destruct (safeUpdate _ _ w2) as [[?|?] w3]; done.
Qed.

Lemma perform_wf call w : closed w → wf (perform (Error:=Error) call w).
Proof.
  destruct call; simpl; [apply ensure_wf|apply reset_wf|apply delete_wf|apply update_wf].
Qed.

(** ** Reading a key *)

Lemma safeGet_spec key w l w1 :
  closed w → safeGet (Error:=Error) key w = (Ok l, w1) →
  w1 = (getInstance (Error:=Error) w).2 ∧ wf w1 ∧ entry w1 key = Some l.
Proof.
  intros Hcl. rw /safeGet /lock bind_getInstance.
  pose proof (getInstance_wf w Hcl) as Hwf.
  destruct (getInstance w) as [r0 w0]. simpl in *.
  pose proof Hwf as (lc & c & m & Hi & Hc & Htc & _)%wf_theCache.
  rw -/(safeGet key w0) (safeGet_live key w0 lc c Hi Hc). intros [= <- <-].
  split; [done|]. split; [done|]. by rw /entry Htc.
Qed.

Lemma getTools_wf sid w : wf w → wf (getToolsForSession (Error:=Error) sid w).2.
Proof.
  intros Hwf.
  destruct (wf_theCache w Hwf) as (lc & c & m & Hi & Hc & Htc & _).
  destruct (getTools_spec sid w c Htc)
    as (la & w' & -> & _ & _ & Harr & Hs & Hm & _ & Hco & Hin).
  simpl. split; [|by rw Hin Hi].
  apply (closed_same_maps w); [apply Hwf| |done..]. by rw /grows Hs Hm.
Qed.

(** ** Each operation touches the one key it is given *)



Lemma safeUpdate_tools_frame (fn : loc → M loc) w :
  tools_fn_ok fn → wf w →
  let w' := (safeUpdate Ktools fn w).2 in
  instance w' = instance w ∧ setObjs w' = setObjs w
  ∧ entry w' KallowedOrgs = entry w KallowedOrgs.
Proof.
  intros Hfn Hwf.
  destruct (wf_theCache w Hwf) as (lc & c & m & Hi & Hc & Htc & [_ Ht] & _).
  rw (safeUpdate_live Ktools fn w lc c Hi Hc).
  destruct (Hfn (tools c) w (proj1 Hwf) Ht) as (_ & Hi1 & Hc1 & Hs1 & _).
  simpl. destruct (fn (tools c) w) as [[new|e] w1]; simpl in *.
  - split; [done|]. split; [done|].
    rw /entry /theCache /= Hi1 Hi /= lookup_insert_eq /= /cacheAt Hc1 Hc /=.
    done.
  - split; [done|]. split; [done|]. by rw /entry /theCache Hi1 Hc1.
Qed.

Lemma perform_frame (call : ToolCall ToolInfo Error) w :
  wf w →
  let w' := perform call w in
  instance w' = instance w ∧ setObjs w' = setObjs w
  ∧ entry w' KallowedOrgs = entry w KallowedOrgs.
Proof.
  intros Hwf. destruct call as [sid|sid|sid|sid f]; simpl.
  - rw /ensureToolSession /bind.
    pose proof (safeUpdate_tools_frame _ w (ensure_fn_ok (resolveToolSessionId sid)) Hwf) as Hf.
    simpl in Hf. by destruct (safeUpdate _ _ w) as [[?|?] ?].
  - rw /resetToolsForSession /bind.
    pose proof (safeUpdate_tools_frame _ w (reset_fn_ok (resolveToolSessionId sid)) Hwf) as Hf.
    simpl in Hf. by destruct (safeUpdate _ _ w) as [[?|?] ?].
  - rw /deleteToolSession /bind.
    pose proof (safeUpdate_tools_frame _ w (delete_fn_ok (resolveToolSessionId sid)) Hwf) as Hf.
    simpl in Hf. by destruct (safeUpdate _ _ w) as [[?|?] ?].
  - rw /updateToolsForSession /bind /newArray /newVar. simpl.
    set (w2 := with_letVars _ _).
    assert (Hwf2 : wf w2).
    { split; [|apply Hwf]. apply (closed_same_maps w); try done; [apply Hwf|]. solve_grows. }
    pose proof (safeUpdate_tools_frame _ w2
      (update_fn_ok (resolveToolSessionId sid) f (fresh (dom (letVars w)))) Hwf2) as Hf.
    simpl in Hf. by destruct (safeUpdate _ _ w2) as [[?|?] ?].
Qed.

(** ** Updating a session *)

(** The function [updateToolsForSession] hands to [safeUpdate] applies
    [updateFn] to the sequence the session holds; it throws what
    [updateFn] throws, before any map object is built, and otherwise
    returns a map that binds the session to the result. *)
Lemma update_fn_run rsid (f : list ToolInfo → Exc (list ToolInfo)) updatedTools toolMap w :
  match f (default [] (snapshot w toolMap !! rsid)),
        updateToolsForSession_fn rsid (callToolsFn f) updatedTools toolMap w with
  | Ok xs, (Ok new, w') => snapshot w' new !! rsid = Some xs
  | Throw e, (Throw e', w') => e' = e ∧ mapObjs w' = mapObjs w
  | _, _ => False
  end.
Proof.
  unfold_ops. unfold_obs. rw lookup_fmap.
  destruct (default ∅ (mapObjs w !! toolMap) !! rsid) as [la|]; heap_simpl;
    destruct (f _) as [xs|e]; heap_simpl; try done.
  - rw lookup_fmap. heap_simpl. done.
  - rw lookup_fmap. heap_simpl. done.
Qed.

Lemma toolsOf_entry w c :
  theCache w = Some c →
  ∀ id, toolsOf w id = default [] (snapshot w (tools c) !! id).
Proof. intros Hc id. by rw /toolsOf /sessions Hc. Qed.

Lemma update_throws sid (f : list ToolInfo → Exc (list ToolInfo)) e w :
  wf w →
  f (toolsOf w (resolveToolSessionId sid)) = Throw e →
  ∃ w', updateToolsForSession sid (callToolsFn f) w = (Throw e, w')
    ∧ instance w' = instance w ∧ cacheObjs w' = cacheObjs w
    ∧ setObjs w' = setObjs w ∧ mapObjs w' = mapObjs w
    ∧ arrObjs w ⊆ arrObjs w'.
Proof.
  intros Hwf Hf.
  pose proof (update_grows sid f w) as Hg. revert Hg.
  rw /updateToolsForSession /bind /newArray /newVar. simpl.
  set (w2 := with_letVars _ _). set (lv := fresh (dom (letVars w))).
  assert (Hg2 : grows w w2) by solve_grows.
  assert (Hwf2 : wf w2).
  { split; [|apply Hwf]. by apply (closed_same_maps w); [apply Hwf|..]. }
  destruct (wf_theCache w2 Hwf2) as (lc & c & m & Hi & Hc & Htc & [_ Ht] & _).
  assert (Hsame : toolsOf w2 (resolveToolSessionId sid) = toolsOf w (resolveToolSessionId sid)).
  { rw /toolsOf. by destruct (contents_grows w w2 Hwf Hg2 eq_refl) as [-> _]. }
  rw (safeUpdate_live Ktools _ w2 lc c Hi Hc).
  pose proof (update_fn_run (resolveToolSessionId sid) f lv (tools c) w2) as Hrun.
  rw -(toolsOf_entry w2 c Htc) Hsame Hf in Hrun.
  destruct (update_fn_ok (resolveToolSessionId sid) f lv (tools c) w2 (proj1 Hwf2) Ht)
    as (_ & Hi3 & Hc3 & Hs3 & _).
  simpl in *.
  destruct (updateToolsForSession_fn _ (callToolsFn f) lv (tools c) w2) as [[new|e'] w3]; [done|].
  destruct Hrun as [-> Hm3]. simpl in *. intros (_ & _ & Ha).
  exists w3. by rw Hi3 Hc3 Hs3 Hm3.
Qed.

(** ** Update functions that run on the store *)

Lemma callToolsFn_respects (f : list ToolInfo → Exc (list ToolInfo)) :
  respects (callToolsFn f).
Proof.
  intros arg w Hcl Harg. rw /callToolsFn /newArray.
  destruct (f (arrAt w arg)) as [xs|e]; simpl.
  - split.
    { apply (closed_same_maps w); try done. solve_grows. }
    split; [done|]. split; [done|]. split.
    { etrans; [apply delete_subseteq|]. by apply fresh_sub. }
    split; [done|]. split; [done|]. intros ? [= <-]. apply fresh_in_insert.
  - split; [done|]. split; [done|]. split; [done|]. split; [apply delete_subseteq|]. done.
Qed.

Lemma pushInPlace_respects (x : ToolInfo) : respects (pushInPlace (Error:=Error) x).
Proof.
  intros arg w Hcl Harg. rw /pushInPlace /=.
  split.
  { destruct Hcl as (Hc & Hm & Hi). split; [done|]. split; [|done].
    intros l m Hl k la Hk. simpl. rw dom_insert_L. pose proof (Hm l m Hl k la Hk). set_solver. }
  split; [done|]. split; [done|]. split.
  { rw -insert_delete_eq. apply insert_subseteq. by rw lookup_delete_eq. }
  split; [done|]. split; [done|]. intros ? [= <-]. rw dom_insert_L. set_solver.
Qed.

(** The function [updateToolsForSession] hands to [safeUpdate] calls
    [updateFn] on a new array that holds what the session holds, in a
    store that differs from the one it started in by that array (and by
    the empty array of [?? []]); it throws what [updateFn] throws, having
    written nothing more, and otherwise binds the session to the
    reference [updateFn] returned in a new map. *)
Lemma update_fn_call rsid (updateFn : loc → M loc) lv toolMap w m :
  closed w → mapObjs w !! toolMap = Some m →
  ∃ copy w1,
    closed w1 ∧ arrObjs w ⊆ delete copy (arrObjs w1)
    ∧ arrObjs w1 !! copy = Some (default [] (snapshot w toolMap !! rsid))
    ∧ setObjs w1 = setObjs w ∧ mapObjs w1 = mapObjs w
    ∧ cacheObjs w1 = cacheObjs w ∧ instance w1 = instance w
    ∧ updateToolsForSession_fn rsid updateFn lv toolMap w
      = match updateFn copy w1 with
        | (Ok result, w2) =>
            (Ok (fresh (dom (mapObjs w2))),
             with_mapObjs (insert (fresh (dom (mapObjs w2))) (<[rsid := result]> (mapAt w2 toolMap)))
               (with_letVars (insert lv result) w2))
        | (Throw e, w2) => (Throw e, w2)
        end.
Proof.
  intros Hcl Hm.
  rw /updateToolsForSession_fn /getOrEmpty /mapGet /spread /newArray /setVar /copyMap /mapSet.
  rw /snapshot lookup_fmap /bind /ret /mapAt Hm /=.
  destruct (m !! rsid) as [la|] eqn:Hla; simpl.
  - pose proof (closed_map_ok w toolMap m Hcl Hm rsid la Hla) as [xs Hxs]%elem_of_dom.
    exists (fresh (dom (arrObjs w))), (with_arrObjs (insert (fresh (dom (arrObjs w))) (arrAt w la)) w).
    split; [|split; [|split; [|split; [|split; [|split; [|split]]]]]]; try done.
    + apply (closed_same_maps w); try done. solve_grows.
    + simpl. rw delete_insert_id; [|done]. apply not_elem_of_dom, is_fresh.
    + by rw /= lookup_insert_eq.
    + destruct (updateFn _ _) as [[result|e] w2]; [|done]. rw /with_mapObjs /with_letVars. heap_simpl. done.
  - set (w0 := with_arrObjs (insert (fresh (dom (arrObjs w))) []) w).
    exists (fresh (dom (arrObjs w0))), (with_arrObjs (insert (fresh (dom (arrObjs w0))) []) w0).
    assert (Hg0 : grows w w0) by (rw /w0; solve_grows).
    split; [|split; [|split; [|split; [|split; [|split; [|split]]]]]]; try done.
    + apply (closed_same_maps w); try done. etrans; [exact Hg0|]. solve_grows.
    + simpl. rw delete_insert_id; [apply not_elem_of_dom, is_fresh|]. apply Hg0.
    + by rw /= lookup_insert_eq.
    + rw {1}/arrAt /= lookup_insert_eq /=.
      destruct (updateFn _ _) as [[result|e] w2]; [|done]. rw /with_mapObjs /with_letVars. heap_simpl. done.
Qed.

(** What a call of [updateToolsForSession] does in a well-formed store,
    for an update function that respects the store: it calls [updateFn]
    once, on a new array holding what the session holds.  If [updateFn]
    throws, the call rejects with what was thrown, in the store
    [updateFn] left.  If it returns, the call resolves with the reference
    it returned, bound to the session in a new map. *)
Lemma update_call sid (updateFn : loc → M loc) w :
  wf w → respects updateFn →
  ∃ copy w1,
    closed w1 ∧ arrObjs w1 !! copy = Some (toolsOf w (resolveToolSessionId sid))
    ∧ match updateFn copy w1 with
      | (Throw e, w2) =>
          updateToolsForSession sid updateFn w = (Throw e, w2)
          ∧ wf w2 ∧ grows w w2 ∧ instance w2 = instance w ∧ cacheObjs w2 = cacheObjs w
      | (Ok result, w2) =>
          ∃ new w', updateToolsForSession sid updateFn w = (Ok result, w')
            ∧ wf w' ∧ grows w w' ∧ instance w' = instance w
            ∧ arrObjs w' = arrObjs w2
            ∧ entry w' Ktools = Some new ∧ (new ∉ dom (mapObjs w))
            ∧ mapAt w' new !! resolveToolSessionId sid = Some result
            ∧ entry w' KallowedOrgs = entry w KallowedOrgs
            ∧ sessions w' = <[resolveToolSessionId sid := arrAt w2 result]> (sessions w)
            ∧ orgs w' = orgs w
      end.
Proof.
  intros Hwf Hres.
  rw /updateToolsForSession /bind /newArray /newVar. simpl.
  set (w0 := with_letVars _ _). set (lv := fresh (dom (letVars w))).
  set (rsid := resolveToolSessionId sid).
  assert (Hg0 : grows w w0) by solve_grows.
  assert (Hwf0 : wf w0).
  { split; [|apply Hwf]. by apply (closed_same_maps w); [apply Hwf|..]. }
  destruct (contents_grows w w0 Hwf Hg0 eq_refl) as [Hse0 Hor0].
  destruct (wf_theCache w0 Hwf0) as (lc & c & m & Hi & Hc & Htc & [Ho Ht] & Hm & Hmok).
  rw (safeUpdate_live Ktools _ w0 lc c Hi Hc) /field.
  destruct (update_fn_call rsid updateFn lv (tools c) w0 m (proj1 Hwf0) Hm)
    as (copy & w1 & Hcl1 & Ha1 & Hcopy & Hs1 & Hm1 & Hc1 & Hi1 & ->).
  exists copy, w1. split; [done|].
  split; [by rw Hcopy /toolsOf -Hse0 /sessions Htc|].
  destruct (Hres copy w1 Hcl1 (elem_of_dom_2 _ _ _ Hcopy))
    as (Hcl2 & Hs2 & Hm2 & Ha2 & Hc2 & Hi2 & Hr2).
  assert (Hg2 : grows w (updateFn copy w1).2).
  { split; [by rw -Hs1|]. split; [by rw -Hm1|].
    etrans; [apply Hg0|]. etrans; [exact Ha1|exact Ha2]. }
  pose proof (closed_map_ok w (tools c) m (proj1 Hwf) Hm) as Hmw.
  destruct (updateFn copy w1) as [[result|e] w2]; simpl in *.
  - set (new := fresh (dom (mapObjs w2))).
    assert (Hm2' : mapAt w2 (tools c) = m).
    { by rw /mapAt (lookup_weaken _ _ _ _ Hm (proj1 (proj2 Hg2))). }
    rw {1}/cacheAt /= Hc2 Hc1 Hc /= Hm2'.
    set (w' := with_cacheObjs _ _). exists new, w'.
    assert (Hg' : grows w w').
    { etrans; [exact Hg2|]. split; [done|]. split; [|done].
      simpl. apply insert_subseteq, not_elem_of_dom, is_fresh. }
    assert (Htc' : theCache w' = Some (mkCache (allowedOrgs c) new)).
    { by rw /theCache /= Hi2 Hi1 Hi /= lookup_insert_eq. }
    split; [by rw /getVar /= lookup_insert_eq|].
    split.
    { split; [|simpl; rw Hi2 Hi1 Hi; eauto].
      apply (closed_grows w2 w' Hcl2); rw /w' /=.
      - split; [done|]. split; [|done]. simpl. apply insert_subseteq, not_elem_of_dom, is_fresh.
      - intros l c' [[<- <-]|[? ?]]%lookup_insert_Some; [right|by left]. split; simpl.
        + by apply (subseteq_dom _ _ (proj1 Hg2)).
        + rw dom_insert_L. set_solver.
      - intros l m' [[<- <-]|[? ?]]%lookup_insert_Some; [right|by left].
        apply map_ok_insert; [by apply Hr2|]. by apply (map_ok_grows w).
      - simpl. rw Hi2 Hi1 Hi dom_insert_L. set_solver. }
    split; [done|]. split; [by rw /= Hi2 Hi1|]. split; [done|].
    split; [by rw /entry Htc'|].
    split.
    { intros Hin. apply (is_fresh (dom (mapObjs w2))).
      by apply (subseteq_dom _ _ (proj1 (proj2 Hg2))). }
    split; [by rw /mapAt /= lookup_insert_eq /= lookup_insert_eq|].
    split; [by rw /entry Htc' /theCache Hi /= Hc|].
    split.
    + rw /sessions Htc' /theCache Hi /= Hc /= /snapshot {1}/mapAt /= lookup_insert_eq /= fmap_insert.
      rw /mapAt Hm /=. f_equal.
      apply (fmap_arrAt_grows w w' m Hmw Hg').
    + rw /orgs Htc' /theCache Hi /= Hc /=. by apply setAt_grows.
  - split; [done|]. split; [split; [done|]; rw Hi2 Hi1 Hi; eauto|].
    split; [done|]. by rw Hi2 Hi1 Hc2 Hc1.
Qed.

Lemma newArray_grows xs w : grows w (newArray (Error:=Error) xs w).2.
Proof. rw /newArray. solve_grows. Qed.

Lemma newArray_frame xs w :
  cacheObjs (newArray (Error:=Error) xs w).2 = cacheObjs w
  ∧ instance (newArray (Error:=Error) xs w).2 = instance w.
Proof. done. Qed.

Lemma pushThenThrow_respects (x : ToolInfo) (e : Error) : respects (pushThenThrow x e).
Proof.
  intros arg w Hcl Harg. rw /pushThenThrow /=.
  split.
  { destruct Hcl as (Hc & Hm & Hi). split; [done|]. split; [|done].
    intros l m Hl k la Hk. simpl. rw dom_insert_L. pose proof (Hm l m Hl k la Hk). set_solver. }
  split; [done|]. split; [done|]. split; [|done].
  rw -insert_delete_eq. apply insert_subseteq. by rw lookup_delete_eq.
Qed.

Lemma update_respects sid (updateFn : loc → M loc) w :
  wf w → respects updateFn →
  wf (updateToolsForSession sid updateFn w).2 ∧ grows w (updateToolsForSession sid updateFn w).2.
Proof.
  intros Hwf Hres.
  destruct (update_call sid updateFn w Hwf Hres) as (copy & w1 & _ & _ & Hrun).
  destruct (updateFn copy w1) as [[result|e] w2].
  - by destruct Hrun as (new & w' & -> & ? & ? & _).
  - by destruct Hrun as (-> & ? & ? & _).
Qed.

Lemma performCall_respects call w :
  wf w → call_respects call →
  wf (performCall (Error:=Error) call w) ∧ grows w (performCall call w).
Proof.
  intros Hwf Hres. destruct call as [sid|sid|sid|sid updateFn]; simpl.
  - split; [apply ensure_wf, Hwf|apply ensure_grows].
  - split; [apply reset_wf, Hwf|apply reset_grows].
  - split; [apply delete_wf, Hwf|apply delete_grows].
  - by apply update_respects.
Qed.

Lemma performCalls_respects calls w :
  wf w → Forall call_respects calls →
  wf (performCalls (Error:=Error) calls w) ∧ grows w (performCalls calls w).
Proof.
  intros Hwf Hall. revert w Hwf.
  induction Hall as [|call calls Hcall _ IH]; intros w Hwf; [done|]. simpl.
  destruct (performCall_respects call w Hwf Hcall) as [Hwf1 Hg1].
  destruct (IH _ Hwf1) as [Hwf2 Hg2]. split; [done|]. by etrans.
Qed.

(** ** Initialisation *)

Lemma getInstance_init w :
  instance w = None →
  ∃ cache w', getInstance (Error:=Error) w = (Ok cache, w')
    ∧ instance w' = Some cache
    ∧ orgs w' = ∅
    ∧ sessions w' = {[ DEFAULT_TOOL_SESSION_ID := [] ]}.
Proof.
  intros Hi. unfold_ops. rw Hi. heap_simpl.
  eexists _, _. split; [reflexivity|]. split; [done|].
  unfold_obs. heap_simpl. split; [done|].
  by rw fmap_insert fmap_empty lookup_insert_eq.
Qed.

(** ** Calls in flight *)

Lemma safeUpdate_section_live key (fn : loc → M loc) w lc :
  instance w = Some lc →
  safeUpdate_section lc key fn w = safeUpdate key fn w.
Proof. intros Hi. by rw /safeUpdate /lock /bind (getInstance_live w lc Hi). Qed.

(** Running the function of an [updateToolsForSession] call whose
    [updateFn] returns [xs]: the session holds [xs] afterwards. *)
Lemma update_section_run rsid (f : list ToolInfo → Exc (list ToolInfo)) lv lc xs w :
  wf w → instance w = Some lc →
  f (toolsOf w rsid) = Ok xs →
  let w' := (safeUpdate_section lc Ktools (updateToolsForSession_fn rsid (callToolsFn f) lv) w).2 in
  wf w' ∧ instance w' = instance w ∧ toolsOf w' rsid = xs.
Proof.
  intros Hwf Hlc Hf w'. subst w'. rw (safeUpdate_section_live _ _ _ _ Hlc).
  pose proof (safeUpdate_tools_wf _ w (update_fn_ok rsid f lv) (proj1 Hwf)) as Hwf'.
  revert Hwf'.
  destruct (wf_theCache w Hwf) as (lc' & c & m & Hi & Hc & Htc & [_ Ht] & _).
  rw (safeUpdate_live Ktools _ w lc' c Hi Hc).
  pose proof (update_fn_run rsid f lv (tools c) w) as Hrun.
  rw -(toolsOf_entry w c Htc) Hf in Hrun.
  destruct (update_fn_ok rsid f lv (tools c) w (proj1 Hwf) Ht) as (_ & Hi3 & Hc3 & _).
  simpl in *.
  destruct (updateToolsForSession_fn rsid (callToolsFn f) lv (tools c) w) as [[new|e'] w3]; [|done].
  simpl in *. intros Hwf'. split; [done|]. split; [done|].
  rw /toolsOf /sessions /theCache /= Hi3 Hi /= lookup_insert_eq /=.
  by rw -/(snapshot w3 new) Hrun.
Qed.

Lemma toolsOf_uninitialised w id : instance w = None → toolsOf w id = [].
Proof. intros Hi. by rw /toolsOf /sessions /theCache Hi. Qed.

(** Issuing a call hands a function to the gate and leaves what the cache
    holds as it is. *)
Lemma issue_spec sid (f : list ToolInfo → Exc (list ToolInfo)) w :
  closed w →
  ∃ lc lv w',
    updateToolsForSession_issue sid (callToolsFn f) w
    = (Ok (safeUpdate_section lc Ktools
             (updateToolsForSession_fn (resolveToolSessionId sid) (callToolsFn f) lv)), w')
    ∧ wf w' ∧ instance w' = Some lc
    ∧ (∀ lc0, instance w = Some lc0 → lc0 = lc)
    ∧ (∀ id, toolsOf w' id = toolsOf w id).
Proof.
  intros Hcl. rw /updateToolsForSession_issue /bind /newArray /newVar /ret. simpl.
  set (w2 := with_letVars _ _). set (lv := fresh (dom (letVars w))).
  assert (Hg2 : grows w w2) by solve_grows.
  assert (Hcl2 : closed w2) by (by apply (closed_same_maps w)).
  pose proof (getInstance_wf w2 Hcl2) as Hwf3.
  destruct (instance w) as [lc0|] eqn:Hi.
  - assert (Hi2 : instance w2 = Some lc0) by done.
    rw (getInstance_live w2 lc0 Hi2) in Hwf3 |- *. simpl in *.
    exists lc0, lv, w2. split; [done|]. split; [done|]. split; [done|].
    split; [by intros ? [= ->]|]. intros id.
    assert (Hwf : wf w) by (split; [done|]; by rw Hi).
    rw /toolsOf. by destruct (contents_grows w w2 Hwf Hg2 eq_refl) as [-> _].
  - assert (Hi2 : instance w2 = None) by done.
    destruct (getInstance_init w2 Hi2) as (lc & w3 & Hg & Hi3 & _ & Hs).
    rw Hg in Hwf3 |- *. simpl in *.
    exists lc, lv, w3. split; [done|]. split; [done|]. split; [done|].
    split; [done|]. intros id. rw (toolsOf_uninitialised w id Hi) /toolsOf Hs.
    destruct (decide (id = DEFAULT_TOOL_SESSION_ID)) as [->|Hne].
    + by rw lookup_singleton_eq.
    + by rw lookup_singleton_ne.
Qed.

Lemma in_flight_launch sid items w :
  closed w →
  in_flight sid items (toolsOf w (resolveToolSessionId sid)) (launch sid items w).
Proof.
  intros Hcl. exists [], items, []. simpl. rw app_nil_r.
  split; [done|]. split; [done|]. split; [constructor|]. done.
Qed.

Local Arguments step : simpl never.

Lemma in_flight_step sid items base ev cfg cfg' :
  in_flight sid items base cfg → step ev cfg = Some cfg' →
  in_flight sid items base cfg'.
Proof.
  intros (pend & rest & served & Hw & Hu & Hin & Hcl & Ht & Hp).
  destruct ev as [|i]; rw /step.
  - rw Hu. destruct rest as [|item rest]; [done|]. simpl.
    destruct (issue_spec sid (appendItem item) (store cfg) Hcl)
      as (lc & lv & w' & -> & Hwf' & Hi' & Hsame & Htools).
    intros [= <-]. exists (pend ++ [(item, lv, lc)]), rest, served. simpl.
    split; [by rw Hw fmap_app|]. split; [done|]. split.
    { apply Forall_app. split; [|by repeat constructor].
      eapply Forall_impl; [exact Hin|]. intros p Hp'. simpl. by rw (Hsame _ Hp'). }
    split; [apply Hwf'|]. split; [by rw Htools|].
    rw fmap_app /= -Hp. by rw -(assoc_L (++)).
  - rw Hw list_lookup_fmap. destruct (pend !! i) as [[[item lv] lc]|] eqn:Hi; [|done]. simpl.
    intros [= <-]. simpl.
    pose proof (Forall_lookup_1 _ _ _ _ Hin Hi) as Hlc. simpl in Hlc.
    assert (Hwf : wf (store cfg)) by (split; [done|]; by rw Hlc).
    destruct (update_section_run (resolveToolSessionId sid) (appendItem item) lv lc
                (toolsOf (store cfg) (resolveToolSessionId sid) ++ [item])
                (store cfg) Hwf Hlc eq_refl) as (Hwf' & Hi' & Ht').
    exists (delete i pend), rest, (served ++ [item]). simpl.
    split; [by rw list_fmap_delete|]. split; [done|]. split.
    { apply Forall_delete. eapply Forall_impl; [exact Hin|]. intros p Hp'.
      by rw /pendingFn /= Hi'. }
    split; [apply Hwf'|]. split.
    { by rw /pendingFn /= Ht' Ht (assoc_L (++)). }
    pose proof (fmap_Permutation (λ p : ToolInfo * loc * loc, p.1.1) _ _
                  (delete_Permutation pend i _ Hi)) as Hperm. simpl in Hperm.
    rw -Hp Hperm -(assoc_L (++) served). simpl. done.
Qed.

Lemma in_flight_run sid items base evs cfg cfg' :
  in_flight sid items base cfg → run evs cfg = Some cfg' →
  in_flight sid items base cfg'.
Proof.
  revert cfg. induction evs as [|ev evs IH]; intros cfg Hinv; simpl.
  - by intros [= <-].
  - destruct (step ev cfg) as [cfg1|] eqn:Hstep; [|done].
    apply IH. by eapply in_flight_step.
Qed.

Lemma in_flight_settled sid items base cfg :
  in_flight sid items base cfg → settled cfg = true →
  ∃ served, served ≡ₚ items ∧ toolsOf (store cfg) (resolveToolSessionId sid) = base ++ served.
Proof.
  intros (pend & rest & served & Hw & Hu & _ & _ & Ht & Hp).
  rw /settled. intros [Hlw Hlu]%andb_prop.
  apply bool_decide_eq_true_1, nil_length_inv in Hlw, Hlu.
  rw Hw in Hlw. rw Hu in Hlu.
  apply fmap_nil_inv in Hlw, Hlu. subst pend rest. simpl in Hp. rw app_nil_r in Hp.
  by exists served.
Qed.

(** Progress: issuing every call and then serving the gate in arrival
    order runs every call to completion. *)
Lemma run_app evs1 evs2 (cfg : Config ToolInfo Error) :
  run (evs1 ++ evs2) cfg = run evs1 cfg ≫= run evs2.
Proof.
  revert cfg. induction evs1 as [|ev evs1 IH]; intros cfg; simpl; [done|].
  by destruct (step ev cfg).
Qed.

Lemma run_issue_all sid items base n cfg :
  in_flight sid items base cfg → length (unissued cfg) = n →
  ∃ cfg', run (replicate n Issue) cfg = Some cfg'
    ∧ length (unissued cfg') = 0
    ∧ length (waiting cfg') = length (waiting cfg) + n.
Proof.
  revert cfg. induction n as [|n IH]; intros cfg Hinv Hn; simpl.
  - exists cfg. split; [done|]. split; [done|]. lia.
  - pose proof Hinv as (pend & rest & served & Hw & Hu & Hin & Hcl & Ht & Hp).
    destruct rest as [|item rest]; [by rw Hu in Hn|].
    destruct (issue_spec sid (appendItem item) (store cfg) Hcl)
      as (lc & lv & w' & Hissue & _).
    set (cfg1 := mkConfig w'
      (waiting cfg ++ [pendingFn (resolveToolSessionId sid) (item, lv, lc)])
      ((λ item, updateToolsForSession_issue sid (callToolsFn (appendItem item))) <$> rest)).
    assert (Hstep : step Issue cfg = Some cfg1).
    { by rw /step Hu /= Hissue. }
    rw Hstep.
    destruct (IH cfg1) as (cfg' & Hrun & Hlu & Hlw).
    + by eapply in_flight_step.
    + rw Hu /= in Hn. simpl. by injection Hn.
    + exists cfg'. split; [done|]. split; [done|]. rw Hlw /= length_app /=. lia.
Qed.

Lemma run_grant_all n (cfg : Config ToolInfo Error) :
  length (waiting cfg) = n →
  ∃ cfg', run (replicate n (Grant 0)) cfg = Some cfg'
    ∧ length (waiting cfg') = 0 ∧ unissued cfg' = unissued cfg.
Proof.
  revert cfg. induction n as [|n IH]; intros cfg Hn; simpl.
  - by exists cfg.
  - destruct (waiting cfg) as [|fn fns] eqn:Hw; [done|]. rw /step Hw /=.
    destruct (IH (mkConfig (fn (store cfg)).2 fns (unissued cfg))) as (cfg' & Hrun & Hl & Hu).
    + simpl in *. by injection Hn.
    + by exists cfg'.
Qed.

(** * Main theorems *)

(** C9. Initialisation.  When the singleton does not exist yet,
    [getInstance] creates it with 'allowedOrgs' an empty set and 'tools'
    the single-entry mapping from ["default"] to an empty sequence.
    [getToolsForSession()] then returns an empty sequence, whether it is
    the first access or follows it, and [resolveToolSessionId(undefined)]
    is ["default"]. *)
Theorem initialization_postcondition w :
  instance w = None →
  ∃ cache w',
    getInstance (Error:=Error) w = (Ok cache, w')
    ∧ instance w' = Some cache
    ∧ orgs w' = ∅
    ∧ sessions w' = {[ "default" := [] ]}
    ∧ (∃ la w'', getToolsForSession (Error:=Error) None w' = (Ok la, w'') ∧ arrAt w'' la = [])
    ∧ (∃ la w'', getToolsForSession (Error:=Error) None w = (Ok la, w'') ∧ arrAt w'' la = [])
    ∧ resolveToolSessionId None = "default".
Proof.
  intros Hi.
  destruct (getInstance_init w Hi) as (cache & w' & Hg & Hi' & Ho & Hs).
  exists cache, w'. do 4 (split; [done|]).
  assert (Htc : is_Some (theCache w')).
  { rw /sessions in Hs. destruct (theCache w'); [by eexists|].
    simpl in Hs. by apply (f_equal (λ m, m !! DEFAULT_TOOL_SESSION_ID)) in Hs. }
  destruct Htc as [c Htc].
  destruct (getTools_spec None w' c Htc) as (la & w'' & Hget & Hread & _).
  assert (Hnil : arrAt w'' la = []).
  { by rw Hread Hs /= lookup_singleton_eq. }
  split; [by exists la, w''|]. split; [|done].
  exists la, w''. split; [|done].
  rw -Hget /getToolsForSession /safeGet /bind -/(bind getInstance _ w) bind_getInstance.
  by rw Hg.
Qed.

(** C3, amended.  [resolveToolSessionId] returns every string it is
    given, the empty string included, and returns ["default"] when the
    argument is omitted or [undefined].  It is a function of its argument
    alone: no store is read or written. *)
Theorem resolveToolSessionId_provided_or_default :
  (∀ s : string, resolveToolSessionId (Some s) = s)
  ∧ resolveToolSessionId None = "default".
Proof. done. Qed.

(** C5. Idempotent ensure.  A second [ensureToolSession(s)] right after
    the first leaves the whole store as the first left it.  If [s] already
    has an entry, whatever its sequence, [ensureToolSession(s)] leaves the
    store untouched: the 'tools' key keeps the same map object, no object
    is allocated, and the session's sequence is not reset. *)
Theorem ensure_idempotent sid w :
  (∃ w1, ensureToolSession (Error:=Error) sid w = (Ok (), w1)
         ∧ ensureToolSession (Error:=Error) sid w1 = (Ok (), w1))
  ∧ (∀ c, theCache w = Some c →
          is_Some (mapAt w (tools c) !! resolveToolSessionId sid) →
          ensureToolSession (Error:=Error) sid w = (Ok (), w)).
Proof.
  split.
  - destruct (ensure_creates sid w) as (w1 & c1 & He & Hc & Hp).
    exists w1. split; [done|]. by eapply ensure_present.
  - intros c. apply ensure_present.
Qed.

(** C6. Delete semantics.  After [deleteToolSession(s)] the resolved
    session has no entry in the 'tools' mapping.  A following
    [getToolsForSession(s)] returns an empty sequence, leaves the 'tools'
    key and every map object as they were, and the entry is still absent.
    A following [ensureToolSession(s)] binds the session to an empty
    sequence, whatever it held before the delete.  If [s] had no entry,
    [deleteToolSession(s)] leaves the store untouched. *)
Theorem delete_semantics sid w :
  ∃ w1, deleteToolSession (Error:=Error) sid w = (Ok (), w1)
    ∧ is_Some (theCache w1)
    ∧ sessions w1 !! resolveToolSessionId sid = None
    ∧ (∃ la w2, getToolsForSession (Error:=Error) sid w1 = (Ok la, w2)
         ∧ arrAt w2 la = []
         ∧ entry w2 Ktools = entry w1 Ktools
         ∧ mapObjs w2 = mapObjs w1
         ∧ sessions w2 !! resolveToolSessionId sid = None)
    ∧ (∃ w2, ensureToolSession (Error:=Error) sid w1 = (Ok (), w2)
         ∧ sessions w2 !! resolveToolSessionId sid = Some [])
    ∧ (∀ c, theCache w = Some c →
            mapAt w (tools c) !! resolveToolSessionId sid = None → w1 = w).
Proof.
  destruct (delete_removes sid w) as (w1 & c1 & Hd & Hc & Ha).
  exists w1. split; [done|]. split; [by eexists|].
  assert (Hs : sessions w1 !! resolveToolSessionId sid = None).
  { by rw (sessions_lookup _ _ _ Hc) Ha. }
  split; [done|]. split; [|split].
  - destruct (getTools_spec sid w1 c1 Hc) as (la & w2 & Hg & Hr & _ & _ & _ & Hm & _ & Hco & Hin).
    exists la, w2. split; [done|]. split; [by rw Hr Hs|].
    assert (Hc2 : theCache w2 = Some c1).
    { by rw /theCache Hin Hco. }
    split; [by rw /entry Hc2 Hc|]. split; [done|].
    by rw (sessions_lookup _ _ _ Hc2) /mapAt Hm -/(mapAt w1 (tools c1)) Ha.
  - destruct (ensure_absent sid w1 c1 Hc Ha) as (w2 & He & _ & Hs2). eauto.
  - intros c Hcw Hab. pose proof (delete_absent sid w c Hcw Hab) as Hd'.
    congruence.
Qed.

(** C7. Reset semantics.  After [updateToolsForSession(s, f)] and then
    [resetToolsForSession(s)], [getToolsForSession(s)] returns an empty
    sequence, whatever [f] did, returned or threw.  In any store,
    [resetToolsForSession(s)] resolves and binds the resolved session to an
    empty sequence, creating the entry if it was absent. *)
Theorem reset_semantics sid (f : loc → M loc) w :
  let w1 := (updateToolsForSession sid f w).2 in
  let w2 := (resetToolsForSession (Error:=Error) sid w1).2 in
  (∃ la w3, getToolsForSession (Error:=Error) sid w2 = (Ok la, w3) ∧ arrAt w3 la = [])
  ∧ (∀ w0, ∃ w', resetToolsForSession (Error:=Error) sid w0 = (Ok (), w')
        ∧ sessions w' !! resolveToolSessionId sid = Some []).
Proof.
  intros w1 w2. split.
  - destruct (reset_binds_empty sid w1) as (w' & Hr & [c Hc] & Hs).
    subst w2. rw Hr /=.
    destruct (getTools_spec sid w' c Hc) as (la & w3 & Hg & Ha & _).
    exists la, w3. split; [done|]. by rw Ha Hs.
  - intros w0. destruct (reset_binds_empty sid w0) as (w' & Hr & _ & Hs). eauto.
Qed.

(** C8. Reading is pure and defensive, in a well-formed store.
    [getToolsForSession(s)] returns the sequence the session holds, or an
    empty one if the session has no entry; it changes neither the
    singleton nor any map or set object, so no entry is created; and the
    array it returns is a copy: after any assignment to that array the
    cache holds what it held. *)
Theorem read_is_pure sid w :
  wf w →
  ∃ la w', getToolsForSession (Error:=Error) sid w = (Ok la, w')
    ∧ arrAt w' la = toolsOf w (resolveToolSessionId sid)
    ∧ instance w' = instance w ∧ cacheObjs w' = cacheObjs w
    ∧ mapObjs w' = mapObjs w ∧ setObjs w' = setObjs w
    ∧ sessions w' = sessions w
    ∧ ∀ xs, let w'' := (writeArray (Error:=Error) la xs w').2 in
        theCache w'' = theCache w ∧ mapObjs w'' = mapObjs w
        ∧ sessions w'' = sessions w ∧ orgs w'' = orgs w.
Proof.
  intros Hwf.
  destruct (wf_theCache w Hwf) as (lc & c & m & Hi & Hc & Htc & _).
  destruct (getTools_spec sid w c Htc)
    as (la & w' & Hget & Hread & Hfresh & Harr & Hs & Hm & _ & Hco & Hin).
  exists la, w'. split; [done|]. split; [done|].
  do 4 (split; [done|]).
  assert (Hg : grows w w') by (by rw /grows Hs Hm).
  assert (Htc' : theCache w' = theCache w) by (by rw /theCache Hin Hco).
  split; [by apply contents_grows|].
  intros xs w''. subst w''. rw /writeArray /=.
  set (w'' := with_arrObjs _ w').
  assert (Hg' : grows w w'').
  { split; [by rw /= Hs|]. split; [by rw /= Hm|]. simpl.
    apply insert_subseteq_r; [by apply not_elem_of_dom|done]. }
  assert (Htc'' : theCache w'' = theCache w) by (by rw /theCache /= Hin Hco).
  split; [done|]. split; [done|]. by apply contents_grows.
Qed.

(** C1, amended.  Copy-on-write isolation.  Let [T1] be the map read
    from the 'tools' key of a closed store.  After any sequence of
    [ensureToolSession], [resetToolsForSession], [deleteToolSession] and
    [updateToolsForSession] calls, with any session ids and with update
    functions that modify no object that existed before they were called
    other than the array they are handed, the map object [T1] is the one
    it was, and its contents (its keys and the sequence bound to each)
    are unchanged. *)
Theorem copy_on_write_isolation w T1 w1 (calls : list (SessionCall ToolInfo Error)) :
  closed w →
  safeGet (Error:=Error) Ktools w = (Ok T1, w1) →
  Forall call_respects calls →
  let w2 := performCalls calls w1 in
  is_Some (mapObjs w1 !! T1)
  ∧ mapObjs w2 !! T1 = mapObjs w1 !! T1
  ∧ snapshot w2 T1 = snapshot w1 T1.
Proof.
  intros Hcl (_ & Hwf & He)%safeGet_spec Hall; [|done]. intros w2.
  destruct (wf_theCache w1 Hwf) as (lc & c & m & Hi & Hc & Htc & _ & Hm & Hok).
  rw /entry Htc /= in He. injection He as <-.
  destruct (performCalls_respects calls w1 Hwf Hall) as [_ Hg].
  split; [by eexists|]. split.
  - rw Hm. eapply lookup_weaken; [exact Hm|apply Hg].
  - by eapply snapshot_grows.
Qed.

(** C2, amended.  Update-failure atomicity, in a well-formed store.
    If the function handed to [safeUpdate] throws on the current value of
    the key, [safeUpdate] rejects with the same error and leaves the
    store exactly as the function left it: it writes nothing of its own.
    If the function left every object that existed before the call as it
    was, both entries of the cache are the references they were, and the
    orgs and the tools of every session are what they were.  If the
    [updateFn] of [updateToolsForSession] modifies no object that existed
    before it was called other than the array it is handed, and throws
    whenever it is handed an array holding the session's current
    sequence, the call rejects with that error and both entries and their
    contents are what they were.  So it is for [orgs => f(orgs)] and
    [tools => f(tools)] when [f] throws on the current value, and then no
    set or map object has changed either. *)
Theorem update_failure_atomic w :
  wf w →
  (∀ key (updateFn : loc → M loc) cur e w',
     entry w key = Some cur → updateFn cur w = (Throw e, w') →
     safeUpdate key updateFn w = (Throw e, w')
     ∧ (grows w w' → cacheObjs w' = cacheObjs w → instance w' = instance w →
        entry w' Ktools = entry w Ktools
        ∧ entry w' KallowedOrgs = entry w KallowedOrgs
        ∧ sessions w' = sessions w ∧ orgs w' = orgs w))
  ∧ (∀ sid (updateFn : loc → M loc) e,
       respects updateFn →
       (∀ arg w0, closed w0 →
          arrObjs w0 !! arg = Some (toolsOf w (resolveToolSessionId sid)) →
          (updateFn arg w0).1 = Throw e) →
       ∃ w', updateToolsForSession sid updateFn w = (Throw e, w')
         ∧ entry w' Ktools = entry w Ktools
         ∧ entry w' KallowedOrgs = entry w KallowedOrgs
         ∧ sessions w' = sessions w ∧ orgs w' = orgs w)
  ∧ (∀ (f : gset string → Exc (gset string)) e,
       f (orgs w) = Throw e →
       safeUpdate KallowedOrgs (callOrgsFn f) w = (Throw e, w))
  ∧ (∀ sid (f : list ToolInfo → Exc (list ToolInfo)) e,
       f (toolsOf w (resolveToolSessionId sid)) = Throw e →
       ∃ w', updateToolsForSession sid (callToolsFn f) w = (Throw e, w')
         ∧ entry w' Ktools = entry w Ktools
         ∧ entry w' KallowedOrgs = entry w KallowedOrgs
         ∧ sessions w' = sessions w ∧ orgs w' = orgs w
         ∧ setObjs w' = setObjs w ∧ mapObjs w' = mapObjs w).
Proof.
  intros Hwf.
  destruct (wf_theCache w Hwf) as (lc & c & m & Hi & Hc & Htc & _).
  split; [|split; [|split]].
  - intros key updateFn cur e w' Hcur Hthrow. rw /entry Htc /= in Hcur. injection Hcur as <-.
    split; [by rw (safeUpdate_live key updateFn w lc c Hi Hc) Hthrow|].
    intros Hg Hc' Hi'.
    assert (Htc' : theCache w' = theCache w) by (by rw /theCache Hi' Hc').
    destruct (contents_grows w w' Hwf Hg Htc') as [Hse Ho].
    by rw /entry Htc'.
  - intros sid updateFn e Hres Hthrow.
    destruct (update_call sid updateFn w Hwf Hres) as (copy & w1 & Hcl1 & Hcopy & Hrun).
    pose proof (Hthrow copy w1 Hcl1 Hcopy) as Hfn.
    destruct (updateFn copy w1) as [[result|e'] w'']; [done|].
    simpl in Hfn. injection Hfn as ->.
    destruct Hrun as (Hu & Hwf' & Hg & Hi' & Hc').
    exists w''. split; [done|].
    assert (Htc' : theCache w'' = theCache w) by (by rw /theCache Hi' Hc').
    destruct (contents_grows w w'' Hwf Hg Htc') as [Hse Ho].
    by rw /entry Htc'.
  - intros f e Hf.
    rw (safeUpdate_live KallowedOrgs _ w lc c Hi Hc) /callOrgsFn.
    rw /orgs Htc /= in Hf. by rw Hf.
  - intros sid f e Hf.
    destruct (update_throws sid f e w Hwf Hf) as (w' & Hu & Hi' & Hc' & Hs' & Hm' & Ha').
    exists w'. split; [done|].
    assert (Htc' : theCache w' = theCache w) by (by rw /theCache Hi' Hc').
    assert (Hg : grows w w') by (by rw /grows Hs' Hm').
    destruct (contents_grows w w' Hwf Hg Htc') as [Hse Ho].
    by rw /entry Htc'.
Qed.


(** C4, amended.  [N] concurrent calls
    [updateToolsForSession(sid, tools => [...tools, item])], one per item,
    are launched on a closed store.  Whatever the interleaving of issuing
    the calls and serving the gate, once all calls have completed the
    session holds what it held before followed by the [N] items in some
    order, each once.  If the session was empty or absent when the calls
    were launched, the final sequence has length [N], is a permutation of
    the items, and has no duplicates when the items are pairwise
    distinct.  The calls can always complete: issuing all of them and
    serving the gate in arrival order does. *)
Theorem concurrent_appends_all_kept sid (items : list ToolInfo) w :
  closed w →
  (∀ evs cfg,
     run evs (launch (Error:=Error) sid items w) = Some cfg → settled cfg = true →
     ∃ served, served ≡ₚ items
       ∧ toolsOf (store cfg) (resolveToolSessionId sid)
         = toolsOf w (resolveToolSessionId sid) ++ served)
  ∧ (toolsOf w (resolveToolSessionId sid) = [] →
     ∀ evs cfg,
       run evs (launch (Error:=Error) sid items w) = Some cfg → settled cfg = true →
       length (toolsOf (store cfg) (resolveToolSessionId sid)) = length items
       ∧ toolsOf (store cfg) (resolveToolSessionId sid) ≡ₚ items
       ∧ (NoDup items → NoDup (toolsOf (store cfg) (resolveToolSessionId sid))))
  ∧ (∃ cfg, run (fifo (length items)) (launch (Error:=Error) sid items w) = Some cfg
            ∧ settled cfg = true).
Proof.
  intros Hcl. pose proof (in_flight_launch sid items w Hcl) as Hinv.
  assert (Hall : ∀ evs cfg,
    run evs (launch (Error:=Error) sid items w) = Some cfg → settled cfg = true →
    ∃ served, served ≡ₚ items
      ∧ toolsOf (store cfg) (resolveToolSessionId sid)
        = toolsOf w (resolveToolSessionId sid) ++ served).
  { intros evs cfg Hrun Hset. eapply in_flight_settled; [|done]. by eapply in_flight_run. }
  split; [done|]. split.
  - intros Hempty evs cfg Hrun Hset.
    destruct (Hall evs cfg Hrun Hset) as (served & Hperm & ->). rw Hempty /=.
    split; [by rw Hperm|]. split; [done|]. by rw Hperm.
  - rw /fifo.
    destruct (run_issue_all sid items _ (length items) _ Hinv) as (cfg1 & Hrun1 & Hu1 & Hw1).
    { by rw /= length_fmap. }
    destruct (run_grant_all (length items) cfg1) as (cfg2 & Hrun2 & Hw2 & Hu2).
    { by rw Hw1. }
    exists cfg2. split; [by rw run_app Hrun1|].
    by rw /settled Hw2 Hu2 Hu1.
Qed.

End properties.

(** * The statements at concrete inputs *)

Ltac by_decide := apply (bool_decide_unpack _); vm_compute; exact I.

Lemma initialization_postcondition_witness :
  instance (emptyWorld (ToolInfo:=nat)) = None
  ∧ sessions (getInstance (Error:=string) (emptyWorld (ToolInfo:=nat))).2 = {[ "default" := [] ]}.
Proof.
  split; [reflexivity|].
  destruct (initialization_postcondition (Error:=string) (emptyWorld (ToolInfo:=nat)) eq_refl)
    as (cache & w' & Hg & _ & _ & Hs & _).
  rw Hg. exact Hs.
Defined.

(** C3, as stated, fails on the empty string: [??] only replaces
    [undefined] (and [null]), so [resolveToolSessionId] returns the empty
    string it is given, not ["default"]. *)
Lemma resolveToolSessionId_empty_string_kept :
  resolveToolSessionId (Some EmptyString) = EmptyString
  ∧ resolveToolSessionId (Some EmptyString) ≠ "default".
Proof. split; [reflexivity|discriminate]. Qed.

Lemma ensure_idempotent_witness :
  theCache exampleStore = Some (mkCache 1 3)
  ∧ is_Some (mapAt exampleStore 3 !! "a")
  ∧ ensureToolSession (Error:=string) (Some "a") exampleStore = (Ok (), exampleStore).
Proof.
  assert (H1 : theCache exampleStore = Some (mkCache 1 3)) by (vm_compute; reflexivity).
  assert (H2 : is_Some (mapAt exampleStore 3 !! "a")) by by_decide.
  split; [exact H1|]. split; [exact H2|].
  exact (proj2 (ensure_idempotent (Error:=string) (Some "a") exampleStore) _ H1 H2).
Defined.

Lemma delete_semantics_witness :
  theCache exampleStore = Some (mkCache 1 3)
  ∧ mapAt exampleStore 3 !! "zz" = None
  ∧ deleteToolSession (Error:=string) (Some "zz") exampleStore = (Ok (), exampleStore).
Proof.
  assert (H1 : theCache exampleStore = Some (mkCache 1 3)) by (vm_compute; reflexivity).
  assert (H2 : mapAt exampleStore 3 !! "zz" = None) by (vm_compute; reflexivity).
  split; [exact H1|]. split; [exact H2|].
  destruct (delete_semantics (Error:=string) (Some "zz") exampleStore)
    as (w1 & Hd & _ & _ & _ & _ & Hsame).
  rw Hd (Hsame _ H1 H2). reflexivity.
Defined.

Lemma read_is_pure_witness :
  wf exampleStore
  ∧ ∃ la w', getToolsForSession (Error:=string) (Some "a") exampleStore = (Ok la, w')
      ∧ arrAt w' la = [7]
      ∧ sessions (writeArray (Error:=string) la [9; 9] w').2 = sessions exampleStore.
Proof.
  assert (H1 : wf exampleStore) by by_decide.
  split; [exact H1|].
  destruct (read_is_pure (Error:=string) (Some "a") exampleStore H1)
    as (la & w' & Hg & Hr & _ & _ & _ & _ & _ & Hw).
  exists la, w'. split; [exact Hg|]. split.
  - rw Hr. vm_compute. reflexivity.
  - exact (proj1 (proj2 (proj2 (Hw [9; 9])))).
Defined.

Lemma copy_on_write_isolation_witness :
  closed exampleStore
  ∧ safeGet (Error:=string) Ktools exampleStore = (Ok 3%positive, exampleStore)
  ∧ Forall call_respects exampleSessionCalls
  ∧ snapshot (performCalls exampleSessionCalls exampleStore) 3 = snapshot exampleStore 3.
Proof.
  assert (H1 : closed exampleStore) by by_decide.
  assert (H2 : safeGet (Error:=string) Ktools exampleStore = (Ok 3%positive, exampleStore))
    by (vm_compute; reflexivity).
  assert (H3 : Forall call_respects exampleSessionCalls).
  { repeat apply Forall_cons_2; try apply Forall_nil_2; simpl;
      auto using pushInPlace_respects, callToolsFn_respects, pushThenThrow_respects. }
  split; [exact H1|]. split; [exact H2|]. split; [exact H3|].
  exact (proj2 (proj2 (copy_on_write_isolation exampleStore 3 exampleStore exampleSessionCalls
                         H1 H2 H3))).
Defined.

(** C1, as stated, fails for an update function that writes to an array
    the cache holds.  [updateToolsForSession("a", t => [...t, 1])]
    resolves with the array it stored for session ["a"]; the caller keeps
    it, reads the map [T1] from the 'tools' key, and then calls
    [updateToolsForSession("b", _ => { shared.push(2); return shared })].
    The sequence [T1] binds to ["a"] was [[1]] and is now [[1; 2]]. *)
Lemma copy_on_write_broken_by_shared_array :
  ∃ shared w T1 w1,
    updateToolsForSession (Error:=string) (Some "a") (callToolsFn (appendItem 1)) emptyWorld
    = (Ok shared, w)
    ∧ closed w
    ∧ safeGet (Error:=string) Ktools w = (Ok T1, w1)
    ∧ snapshot w1 T1 !! "a" = Some [1]
    ∧ snapshot (performCalls (Error:=string) [Update (Some "b") (pushOnto shared 2)] w1) T1 !! "a"
      = Some [1; 2].
Proof.
  eexists _, _, _, _. split; [vm_compute; reflexivity|]. split; [by_decide|].
  split; [vm_compute; reflexivity|]. split; vm_compute; reflexivity.
Qed.

Lemma update_failure_atomic_witness :
  wf exampleStore
  ∧ entry exampleStore Ktools = Some 3%positive
  ∧ (∃ w', safeUpdate Ktools (λ _, bind (newArray [9]) (λ _, throw "boom")) exampleStore
           = (Throw "boom", w')
      ∧ sessions w' = sessions exampleStore ∧ orgs w' = orgs exampleStore)
  ∧ (∃ w', updateToolsForSession (Some "a") (pushThenThrow 9 "boom") exampleStore
           = (Throw "boom", w')
      ∧ sessions w' = sessions exampleStore ∧ orgs w' = orgs exampleStore)
  ∧ safeUpdate KallowedOrgs (callOrgsFn failingOrgsFn) exampleStore
    = (Throw "boom", exampleStore)
  ∧ ∃ w', updateToolsForSession (Some "a") (callToolsFn failingToolsFn) exampleStore
          = (Throw "boom", w')
      ∧ sessions w' = sessions exampleStore ∧ orgs w' = orgs exampleStore.
Proof.
  assert (H1 : wf exampleStore) by by_decide.
  assert (H2 : entry exampleStore Ktools = Some 3%positive) by (vm_compute; reflexivity).
  destruct (update_failure_atomic (Error:=string) exampleStore H1) as (Ha & Hb & Hc & Hd).
  split; [exact H1|]. split; [exact H2|].
  split; [|split; [|split]].
  - destruct (Ha Ktools (λ _, bind (newArray [9]) (λ _, throw "boom")) 3%positive "boom"
                (newArray (Error:=string) [9] exampleStore).2 H2 eq_refl)
      as [Hrej Hsame].
    destruct (Hsame (newArray_grows [9] exampleStore)
                (proj1 (newArray_frame [9] exampleStore))
                (proj2 (newArray_frame [9] exampleStore))) as (_ & _ & Hs & Ho).
    eexists. split; [exact Hrej|]. split; [exact Hs|exact Ho].
  - destruct (Hb (Some "a") (pushThenThrow 9 "boom") "boom" (pushThenThrow_respects 9 "boom")
                (λ _ _ _ _, eq_refl))
      as (w' & Hu & _ & _ & Hs & Ho).
    exists w'. split; [exact Hu|]. split; [exact Hs|exact Ho].
  - exact (Hc failingOrgsFn "boom" eq_refl).
  - destruct (Hd (Some "a") failingToolsFn "boom" eq_refl)
      as (w' & Hu & _ & _ & Hs & Ho & _).
    exists w'. split; [exact Hu|]. split; [exact Hs|exact Ho].
Defined.

(** C2, as stated, fails for an update function that mutates the value
    it is handed before it throws: [safeUpdate] hands [updateFn] the map
    the cache holds, so after
    [safeUpdate('tools', m => { m.delete("a"); throw "boom" })] has
    rejected, session ["a"], which held [[7]], is gone. *)
Lemma update_failure_keeps_mutation :
  wf exampleStore
  ∧ sessions exampleStore !! "a" = Some [7]
  ∧ ∃ cur w', entry exampleStore Ktools = Some cur
      ∧ deleteThenThrow "a" "boom" cur exampleStore = (Throw "boom", w')
      ∧ safeUpdate Ktools (deleteThenThrow "a" "boom") exampleStore = (Throw "boom", w')
      ∧ entry w' Ktools = entry exampleStore Ktools
      ∧ sessions w' !! "a" = None.
Proof.
  split; [by_decide|]. split; [vm_compute; reflexivity|].
  eexists _, _. split; [vm_compute; reflexivity|]. split; [vm_compute; reflexivity|].
  split; [vm_compute; reflexivity|]. split; vm_compute; reflexivity.
Qed.


Lemma concurrent_appends_all_kept_witness :
  closed (emptyWorld (ToolInfo:=nat))
  ∧ toolsOf (emptyWorld (ToolInfo:=nat)) "s" = []
  ∧ match run exampleSchedule (launch (Error:=string) (Some "s") [1; 2; 3] emptyWorld) with
    | Some cfg =>
        settled cfg = true
        ∧ length (toolsOf (store cfg) "s") = 3
        ∧ toolsOf (store cfg) "s" ≡ₚ [1; 2; 3]
    | None => False
    end.
Proof.
  assert (H1 : closed (emptyWorld (ToolInfo:=nat))) by by_decide.
  assert (H2 : toolsOf (emptyWorld (ToolInfo:=nat)) "s" = []) by reflexivity.
  split; [exact H1|]. split; [exact H2|].
  destruct (concurrent_appends_all_kept (Error:=string) (Some "s") [1; 2; 3] emptyWorld H1)
    as (_ & Hb & _).
  destruct (run exampleSchedule (launch (Some "s") [1; 2; 3] emptyWorld)) as [cfg|] eqn:Hrun.
  - assert (H3 : settled cfg = true).
    { revert Hrun. vm_compute. intros [= <-]. reflexivity. }
    split; [exact H3|].
    destruct (Hb H2 exampleSchedule cfg Hrun H3) as (Hl & Hp & _).
    split; [exact Hl|exact Hp].
  - revert Hrun. vm_compute. discriminate.
Defined.

(** C4, as stated, fails when the session already holds tools: one call
    appending [8] to session ["a"], which holds [[7]], completes with a
    sequence of length 2, not 1. *)
Lemma concurrent_appends_length_exceeds :
  closed exampleStore
  ∧ match run (fifo 1) (launch (Error:=string) (Some "a") [8] exampleStore) with
    | Some cfg =>
        settled cfg = true
        ∧ toolsOf (store cfg) "a" = [7; 8]
        ∧ length (toolsOf (store cfg) "a") ≠ length [8]
    | None => False
    end.
Proof.
  split; [by_decide|]. vm_compute. split; [reflexivity|]. split; [reflexivity|discriminate].
Qed.

(** * The scenarios of the specification, run on the embedding *)

(** After [ensureToolSession("a")] and
    [updateToolsForSession("a", t => [...t, x])], session ["a"] holds [[x]];
    reading session ["b"], never ensured, gives [[]] and creates no entry. *)
Example scenario_sessions :
  toolsOf exampleStore "a" = [7]
  ∧ toolsOf exampleStore "b" = []
  ∧ sessions (getToolsForSession (Error:=string) (Some "b") exampleStore).2 !! "b" = None
  ∧ dom (sessions exampleStore) = {[ "a"; "default" ]}.
Proof. vm_compute. repeat split; reflexivity. Qed.

(** [safeSet("allowedOrgs", new Set(["org1"]))], then reading it back. *)
Example scenario_allowedOrgs :
  match newSet (Error:=string) {[ "org1" ]} (emptyWorld (ToolInfo:=nat)) with
  | (Ok value, w) => orgs (safeSet (Error:=string) KallowedOrgs value w).2 = {[ "org1" ]}
  | (Throw _, _) => False
  end.
Proof. vm_compute. reflexivity. Qed.

(** [updateToolsForSession] resolves with the array it stored, not a copy. *)
Example scenario_returned_array_is_stored :
  match updateToolsForSession (Error:=string) (Some "a") (callToolsFn (appendItem 8)) exampleStore with
  | (Ok la, w) =>
      arrAt w la = [7; 8] ∧ (entry w Ktools ≫= λ lm, mapAt w lm !! "a") = Some la
  | (Throw _, _) => False
  end.
Proof. vm_compute. split; reflexivity. Qed.

(** * Further properties of the cache *)

Section further.
Context {ToolInfo Error : Type}.
Implicit Types (w : World ToolInfo) (l la lm lc : loc) (sid : option string).

Local Abbreviation M := (M ToolInfo Error).
Local Abbreviation Exc := (Exc Error).

Local Arguments fresh : simpl never.
Local Arguments dom : simpl never.

Ltac unfold_calls :=
  rw /updateToolsForSession /getToolsForSession /deleteToolSession
    /resetToolsForSession /ensureToolSession /updateToolsForSession_fn
    /deleteToolSession_fn /resetToolsForSession_fn /ensureToolSession_fn
    /getOrEmpty /safeSet /safeGet /safeUpdate /safeUpdate_section /lock
    /getInstance /newCache /initialize /cache_set /cache_get /with_field /field
    /callOrgsFn /callToolsFn /getVar /setVar /newVar /mapDelete /mapSet /mapGet
    /mapHas /copyMap /newMap /writeArray /spread /newArray /newSet /bind /ret.

Ltac store_simpl :=
  repeat (progress (simpl; rw ?lookup_insert_eq ?insert_insert_eq)).

Ltac store_simpl_with H := store_simpl; rw ?H; store_simpl.

(** ** What the functions handed to [safeUpdate] build *)

Lemma fresh_above {V} (m m' : gmap loc V) : m ⊆ m' → fresh (dom m') ∉ dom m.
Proof.
  intros Hs Hin. apply (is_fresh (dom m')). by apply (subseteq_dom _ _ Hs).
Qed.

Lemma snapshot_Some w lm m : mapObjs w !! lm = Some m → snapshot w lm = arrAt w <$> m.
Proof. intros Hm. by rw /snapshot /mapAt Hm. Qed.

Lemma reset_fn_snapshot rsid toolMap w m :
  mapObjs w !! toolMap = Some m → map_ok w m →
  ∃ new w1, resetToolsForSession_fn (Error:=Error) rsid toolMap w = (Ok new, w1)
    ∧ (new ∉ dom (mapObjs w))
    ∧ snapshot w1 new = <[rsid := []]> (snapshot w toolMap).
Proof.
  intros Hm Hok. pose proof (reset_fn_grows (Error:=Error) rsid toolMap w) as Hg. revert Hg.
  rw (snapshot_Some w toolMap m Hm).
  unfold_calls. rw /mapAt. store_simpl_with Hm. intros Hg.
  eexists _, _. split; [reflexivity|]. split; [apply is_fresh|].
  rw /snapshot /mapAt. store_simpl. rw fmap_insert (fmap_arrAt_grows w _ m Hok Hg).
  rw /arrAt. store_simpl. done.
Qed.

Lemma ensure_fn_snapshot rsid toolMap w m :
  mapObjs w !! toolMap = Some m → map_ok w m →
  ∃ new w1, ensureToolSession_fn (Error:=Error) rsid toolMap w = (Ok new, w1)
    ∧ snapshot w1 new
      = <[rsid := default [] (snapshot w toolMap !! rsid)]> (snapshot w toolMap)
    ∧ (m !! rsid = None → new ∉ dom (mapObjs w)).
Proof.
  intros Hm Hok. pose proof (ensure_fn_grows (Error:=Error) rsid toolMap w) as Hg. revert Hg.
  rw (snapshot_Some w toolMap m Hm) lookup_fmap.
  unfold_calls. rw /mapAt. store_simpl_with Hm.
  case_bool_decide as Hp; store_simpl_with Hm; intros Hg;
    (eexists _, _; split; [reflexivity|]).
  - destruct Hp as [la Hla]. rw (snapshot_Some w toolMap m Hm) Hla /=. split; [|done].
    symmetry. apply insert_id. by rw lookup_fmap Hla.
  - apply eq_None_not_Some in Hp. rw Hp /=. split; [|intros _; apply is_fresh].
    rw /snapshot /mapAt. store_simpl. rw fmap_insert (fmap_arrAt_grows w _ m Hok Hg).
    rw /arrAt. store_simpl. done.
Qed.

Lemma delete_fn_snapshot rsid toolMap w m :
  mapObjs w !! toolMap = Some m → map_ok w m →
  ∃ new w1, deleteToolSession_fn (Error:=Error) rsid toolMap w = (Ok new, w1)
    ∧ snapshot w1 new = delete rsid (snapshot w toolMap)
    ∧ (is_Some (m !! rsid) → new ∉ dom (mapObjs w)).
Proof.
  intros Hm Hok. pose proof (delete_fn_grows (Error:=Error) rsid toolMap w) as Hg. revert Hg.
  rw (snapshot_Some w toolMap m Hm).
  unfold_calls. rw /mapAt. store_simpl_with Hm.
  case_bool_decide as Hp; store_simpl_with Hm; intros Hg;
    (eexists _, _; split; [reflexivity|]).
  - split; [|intros _; apply is_fresh].
    rw /snapshot /mapAt. store_simpl. by rw fmap_delete.
  - apply eq_None_not_Some in Hp. rw (snapshot_Some w toolMap m Hm). split.
    + symmetry. apply delete_id. by rw lookup_fmap Hp.
    + rw Hp. by intros [? ?].
Qed.

Lemma update_fn_snapshot rsid (f : list ToolInfo → Exc (list ToolInfo)) lv toolMap w m xs :
  mapObjs w !! toolMap = Some m → map_ok w m →
  f (default [] (snapshot w toolMap !! rsid)) = Ok xs →
  ∃ new r w1, updateToolsForSession_fn rsid (callToolsFn f) lv toolMap w = (Ok new, w1)
    ∧ (new ∉ dom (mapObjs w))
    ∧ snapshot w1 new = <[rsid := xs]> (snapshot w toolMap)
    ∧ mapAt w1 new !! rsid = Some r
    ∧ letVars w1 !! lv = Some r
    ∧ arrObjs w1 !! r = Some xs
    ∧ (r ∉ dom (arrObjs w)).
Proof.
  intros Hm Hok. pose proof (update_fn_grows (Error:=Error) rsid f lv toolMap w) as Hg.
  revert Hg. rw (snapshot_Some w toolMap m Hm) lookup_fmap.
  unfold_calls. rw /mapAt /arrAt. store_simpl_with Hm.
  destruct (m !! rsid) as [la|] eqn:Hla; store_simpl_with Hm; intros Hg Hf;
    rw Hf in Hg |- *; revert Hg; store_simpl_with Hm; intros Hg;
    (eexists _, _, _; split; [reflexivity|]); (split; [apply is_fresh|]);
    rw /snapshot /mapAt; store_simpl;
    rw fmap_insert (fmap_arrAt_grows w _ m Hok Hg) /arrAt; store_simpl;
    (split; [done|]); (split; [reflexivity|]); (split; [reflexivity|]);
    (split; [by rw lookup_insert_eq|]);
    apply fresh_above; repeat (first [reflexivity | apply fresh_sub]).
Qed.

(** ** What [safeUpdate('tools', ...)] leaves behind *)

Lemma safeUpdate_tools_run (fn : loc → M loc) w :
  wf w → tools_fn_ok fn →
  ∃ c, theCache w = Some c ∧ tools c ∈ dom (mapObjs w)
    ∧ match fn (tools c) w with
      | (Ok new, w1) =>
          ∃ w2, safeUpdate Ktools fn w = (Ok new, w2)
            ∧ wf w2
            ∧ sessions w2 = snapshot w1 new
            ∧ orgs w2 = orgs w
            ∧ entry w2 Ktools = Some new
            ∧ mapObjs w2 = mapObjs w1 ∧ arrObjs w2 = arrObjs w1
            ∧ letVars w2 = letVars w1
      | (Throw _, _) => True
      end.
Proof.
  intros Hwf Hfn.
  destruct (wf_theCache w Hwf) as (lc & c & m & Hi & Hc & Htc & [Ho Ht] & _).
  exists c. split; [done|]. split; [done|].
  pose proof (safeUpdate_tools_wf fn w Hfn (proj1 Hwf)) as Hwf2. revert Hwf2.
  rw (safeUpdate_live Ktools fn w lc c Hi Hc) /field.
  destruct (Hfn (tools c) w (proj1 Hwf) Ht) as (_ & Hi1 & Hc1 & Hs1 & _).
  destruct (fn (tools c) w) as [[new|e] w1]; [|done]. simpl in *. intros Hwf2.
  eexists. split; [reflexivity|]. split; [done|].
  assert (Htc2 : theCache (with_cacheObjs <[lc:=with_field (cacheAt w1 lc) Ktools new]> w1)
                 = Some (mkCache (allowedOrgs c) new)).
  { by rw /theCache /= Hi1 Hi /= lookup_insert_eq /cacheAt Hc1 Hc. }
  split; [by rw /sessions Htc2|].
  split; [by rw /orgs Htc2 Htc /= /setAt /= Hs1|].
  split; [by rw /entry Htc2|]. done.
Qed.

Lemma sessions_entry w c : theCache w = Some c → sessions w = snapshot w (tools c).
Proof. intros Hc. by rw /sessions Hc. Qed.

Lemma reset_run sid w :
  wf w →
  ∃ new w', resetToolsForSession (Error:=Error) sid w = (Ok (), w')
    ∧ wf w'
    ∧ sessions w' = <[resolveToolSessionId sid := []]> (sessions w)
    ∧ orgs w' = orgs w
    ∧ entry w' Ktools = Some new ∧ (new ∉ dom (mapObjs w)).
Proof.
  intros Hwf.
  destruct (safeUpdate_tools_run _ w Hwf (reset_fn_ok (Error:=Error) (resolveToolSessionId sid)))
    as (c & Htc & Ht & Hrun).
  pose proof Ht as [m Hm]%elem_of_dom.
  destruct (reset_fn_snapshot (resolveToolSessionId sid) (tools c) w m Hm
              (closed_map_ok w _ m (proj1 Hwf) Hm)) as (new & w1 & Hfn & Hnew & Hsnap).
  rw Hfn in Hrun. destruct Hrun as (w2 & Hsu & Hwf2 & Hs & Ho & He & _).
  exists new, w2. rw /resetToolsForSession /bind Hsu /ret.
  split; [done|]. split; [done|]. split; [by rw Hs Hsnap (sessions_entry w c Htc)|]. done.
Qed.

Lemma ensure_run sid w :
  wf w →
  ∃ new w', ensureToolSession (Error:=Error) sid w = (Ok (), w')
    ∧ wf w'
    ∧ sessions w'
      = <[resolveToolSessionId sid := toolsOf w (resolveToolSessionId sid)]> (sessions w)
    ∧ orgs w' = orgs w
    ∧ entry w' Ktools = Some new
    ∧ (sessions w !! resolveToolSessionId sid = None → new ∉ dom (mapObjs w)).
Proof.
  intros Hwf.
  destruct (safeUpdate_tools_run _ w Hwf (ensure_fn_ok (Error:=Error) (resolveToolSessionId sid)))
    as (c & Htc & Ht & Hrun).
  pose proof Ht as [m Hm]%elem_of_dom.
  destruct (ensure_fn_snapshot (resolveToolSessionId sid) (tools c) w m Hm
              (closed_map_ok w _ m (proj1 Hwf) Hm)) as (new & w1 & Hfn & Hsnap & Hnew).
  rw Hfn in Hrun. destruct Hrun as (w2 & Hsu & Hwf2 & Hs & Ho & He & _).
  exists new, w2. rw /ensureToolSession /bind Hsu /ret.
  split; [done|]. split; [done|].
  split; [by rw Hs Hsnap /toolsOf (sessions_entry w c Htc)|].
  split; [done|]. split; [done|].
  intros Habs. apply Hnew. revert Habs.
  rw (sessions_entry w c Htc) (snapshot_Some w _ m Hm) lookup_fmap.
  by destruct (m !! resolveToolSessionId sid).
Qed.

Lemma delete_run sid w :
  wf w →
  ∃ new w', deleteToolSession (Error:=Error) sid w = (Ok (), w')
    ∧ wf w'
    ∧ sessions w' = delete (resolveToolSessionId sid) (sessions w)
    ∧ orgs w' = orgs w
    ∧ entry w' Ktools = Some new
    ∧ (is_Some (sessions w !! resolveToolSessionId sid) → new ∉ dom (mapObjs w)).
Proof.
  intros Hwf.
  destruct (safeUpdate_tools_run _ w Hwf (delete_fn_ok (Error:=Error) (resolveToolSessionId sid)))
    as (c & Htc & Ht & Hrun).
  pose proof Ht as [m Hm]%elem_of_dom.
  destruct (delete_fn_snapshot (resolveToolSessionId sid) (tools c) w m Hm
              (closed_map_ok w _ m (proj1 Hwf) Hm)) as (new & w1 & Hfn & Hsnap & Hnew).
  rw Hfn in Hrun. destruct Hrun as (w2 & Hsu & Hwf2 & Hs & Ho & He & _).
  exists new, w2. rw /deleteToolSession /bind Hsu /ret.
  split; [done|]. split; [done|].
  split; [by rw Hs Hsnap (sessions_entry w c Htc)|].
  split; [done|]. split; [done|].
  intros Hpres. apply Hnew. revert Hpres.
  rw (sessions_entry w c Htc) (snapshot_Some w _ m Hm) lookup_fmap.
  destruct (m !! resolveToolSessionId sid); [by eexists|]. by intros [? ?].
Qed.

Lemma update_run sid (f : list ToolInfo → Exc (list ToolInfo)) xs w :
  wf w →
  f (toolsOf w (resolveToolSessionId sid)) = Ok xs →
  ∃ la new w', updateToolsForSession sid (callToolsFn f) w = (Ok la, w')
    ∧ wf w'
    ∧ arrObjs w' !! la = Some xs
    ∧ sessions w' = <[resolveToolSessionId sid := xs]> (sessions w)
    ∧ orgs w' = orgs w
    ∧ entry w' Ktools = Some new ∧ (new ∉ dom (mapObjs w))
    ∧ mapAt w' new !! resolveToolSessionId sid = Some la
    ∧ (la ∉ dom (arrObjs w)).
Proof.
  intros Hwf Hf.
  rw /updateToolsForSession /bind /newArray /newVar. simpl.
  set (w2 := with_letVars _ _). set (lv := fresh (dom (letVars w))).
  assert (Hg2 : grows w w2).
  { split; [done|]. split; [done|]. simpl. by apply fresh_sub. }
  assert (Hwf2 : wf w2).
  { split; [|apply Hwf]. by apply (closed_same_maps w); [apply Hwf|..]. }
  destruct (contents_grows w w2 Hwf Hg2 eq_refl) as [Hse Hor].
  destruct (safeUpdate_tools_run _ w2 Hwf2
              (update_fn_ok (resolveToolSessionId sid) f lv)) as (c & Htc & Ht & Hrun).
  pose proof Ht as [m Hm]%elem_of_dom.
  assert (Hf2 : f (default [] (snapshot w2 (tools c) !! resolveToolSessionId sid)) = Ok xs).
  { by rw -(sessions_entry w2 c Htc) Hse. }
  destruct (update_fn_snapshot (resolveToolSessionId sid) f lv (tools c) w2 m xs Hm
              (closed_map_ok w2 _ m (proj1 Hwf2) Hm) Hf2)
    as (new & r & w1 & Hfn & Hnew & Hsnap & Hmr & Hlv & Hr & Hfr).
  rw Hfn in Hrun. destruct Hrun as (w3 & Hsu & Hwf3 & Hs & Ho & He & Hm3 & Ha3 & Hl3).
  exists r, new, w3. rw Hsu /getVar Hl3 Hlv /=.
  split; [done|]. split; [done|]. split; [by rw Ha3|].
  split; [by rw Hs Hsnap -(sessions_entry w2 c Htc) Hse|].
  split; [by rw Ho|]. split; [done|]. split; [done|].
  split; [by rw /mapAt Hm3|].
  intros Hin. apply Hfr. by apply (subseteq_dom _ _ (proj2 (proj2 Hg2))).
Qed.

Lemma performAll_instance (calls : list (ToolCall ToolInfo Error)) w :
  wf w → instance (performAll calls w) = instance w.
Proof.
  revert w. induction calls as [|call calls IH]; intros w Hwf; [done|]. simpl.
  rw (IH _ (perform_wf call w (proj1 Hwf))).
  by destruct (perform_frame call w Hwf) as (-> & _).
Qed.

(** ** The singleton and the gate-protected primitives *)

(** X1. Singleton identity.  The first [getInstance] fixes the instance:
    after any sequence of tool-session calls, [getInstance] returns the
    same reference and changes nothing. *)
Theorem singleton_identity w :
  closed w →
  ∃ cache w1, getInstance (Error:=Error) w = (Ok cache, w1)
    ∧ ∀ calls : list (ToolCall ToolInfo Error),
        getInstance (Error:=Error) (performAll calls w1) = (Ok cache, performAll calls w1).
Proof.
  intros Hcl. pose proof (getInstance_wf (Error:=Error) w Hcl) as Hwf.
  destruct (getInstance_idem (Error:=Error) w) as (cache & w1 & Hg & _ & Hi).
  rw Hg in Hwf |- *. simpl in Hwf. exists cache, w1. split; [done|]. intros calls.
  apply getInstance_live. by rw (performAll_instance calls w1 Hwf).
Qed.

(** X2. [safeSet] then [safeGet] of the same key reads back the value
    that was set, and a later [safeSet] of that key overrides an earlier
    one: the store is the one a single [safeSet] of the later value
    gives.  This holds in every store, initialised or not. *)
Theorem safeSet_then_safeGet key v w :
  ∃ w1, safeSet (Error:=Error) key v w = (Ok (), w1)
    ∧ safeGet (Error:=Error) key w1 = (Ok v, w1)
    ∧ ∀ v2, safeSet (Error:=Error) key v2 w1 = safeSet (Error:=Error) key v2 w.
Proof.
  rw /safeSet /lock bind_getInstance.
  destruct (getInstance_idem (Error:=Error) w) as (lc & w0 & Hg & Hg0 & Hi).
  rw Hg /= /bind Hg0 /cache_set. eexists. split; [reflexivity|].
  set (w1 := with_cacheObjs _ w0).
  assert (Hi1 : instance w1 = Some lc) by done.
  assert (Hc1 : cacheObjs w1 !! lc = Some (with_field (cacheAt w0 lc) key v)).
  { by rw /w1 /= lookup_insert_eq. }
  split.
  - rw (safeGet_live key w1 lc _ Hi1 Hc1). by destruct key.
  - intros v2. rw (getInstance_live w1 lc Hi1) Hg /=.
    rw /cacheAt Hc1 /= /w1 /with_cacheObjs /= insert_insert_eq.
    by destruct key.
Qed.

(** X3. In a well-formed store, when the function handed to [safeUpdate]
    returns [new] without touching the singleton, [safeUpdate] resolves
    with [new], a following [safeGet] of the key reads [new], and the
    other key keeps its reference.  If the function returns the current
    value itself, the store is left exactly as it was. *)
Theorem safeUpdate_stores_result key (fn : loc → M loc) w :
  wf w →
  (∀ cur new w1,
     entry w key = Some cur → fn cur w = (Ok new, w1) →
     instance w1 = instance w → cacheObjs w1 = cacheObjs w →
     ∃ w2, safeUpdate key fn w = (Ok new, w2)
       ∧ safeGet (Error:=Error) key w2 = (Ok new, w2)
       ∧ ∀ key', key' ≠ key → entry w2 key' = entry w key')
  ∧ (∀ cur, entry w key = Some cur → fn cur w = (Ok cur, w) →
       safeUpdate key fn w = (Ok cur, w)).
Proof.
  intros Hwf.
  destruct (wf_theCache w Hwf) as (lc & c & m & Hi & Hc & Htc & _).
  split.
  - intros cur new w1. rw /entry Htc /=. intros [= <-] Hfn Hi1 Hc1.
    rw (safeUpdate_live key fn w lc c Hi Hc) Hfn. eexists. split; [reflexivity|].
    set (w2 := with_cacheObjs _ w1).
    assert (Hi2 : instance w2 = Some lc) by (by rw /w2 /= Hi1).
    assert (Hc2 : cacheObjs w2 !! lc = Some (with_field c key new)).
    { by rw /w2 /= lookup_insert_eq /cacheAt Hc1 Hc. }
    split.
    + rw (safeGet_live key w2 lc _ Hi2 Hc2). by destruct key.
    + intros key' Hne. rw /entry /theCache Hi2 /= Hc2 /=.
      by destruct key, key'.
  - intros cur. rw /entry Htc /=. intros [= <-] Hfn.
    rw (safeUpdate_live key fn w lc c Hi Hc) Hfn. f_equal.
    apply World_eq; try done. simpl. rw /cacheAt Hc /=.
    apply insert_id. rw Hc. f_equal. by destruct key, c.
Qed.

(** ** The tool-session operations as operations on a map of sequences *)

(** X4. In a well-formed store [resetToolsForSession(s)] resolves and
    leaves the cache holding the sessions it held, with the resolved
    session bound to an empty sequence; every other session and the
    allowed orgs are as they were. *)
Theorem reset_sessions sid w :
  wf w →
  ∃ w', resetToolsForSession (Error:=Error) sid w = (Ok (), w')
    ∧ sessions w' = <[resolveToolSessionId sid := []]> (sessions w)
    ∧ orgs w' = orgs w.
Proof.
  intros Hwf. destruct (reset_run sid w Hwf) as (new & w' & Hr & _ & Hs & Ho & _).
  by exists w'.
Qed.

(** X5. In a well-formed store [ensureToolSession(s)] resolves and adds
    the resolved session, bound to an empty sequence, when it is absent;
    the sessions already there, the resolved one included, keep their
    sequences, and the allowed orgs are as they were. *)
Theorem ensure_sessions sid w :
  wf w →
  ∃ w', ensureToolSession (Error:=Error) sid w = (Ok (), w')
    ∧ sessions w'
      = <[resolveToolSessionId sid := toolsOf w (resolveToolSessionId sid)]> (sessions w)
    ∧ dom (sessions w') = {[ resolveToolSessionId sid ]} ∪ dom (sessions w)
    ∧ (∀ k xs, sessions w !! k = Some xs → sessions w' !! k = Some xs)
    ∧ orgs w' = orgs w.
Proof.
  intros Hwf. destruct (ensure_run sid w Hwf) as (new & w' & Hr & _ & Hs & Ho & _).
  exists w'. split; [done|]. split; [done|]. split; [by rw Hs dom_insert_L|].
  split; [|done]. intros k xs Hk. rw Hs.
  destruct (decide (k = resolveToolSessionId sid)) as [->|Hne].
  - by rw lookup_insert_eq /toolsOf Hk.
  - by rw lookup_insert_ne.
Qed.

(** X6. In a well-formed store [deleteToolSession(s)] resolves and
    removes the resolved session from the sessions the cache holds; every
    other session and the allowed orgs are as they were. *)
Theorem delete_sessions sid w :
  wf w →
  ∃ w', deleteToolSession (Error:=Error) sid w = (Ok (), w')
    ∧ sessions w' = delete (resolveToolSessionId sid) (sessions w)
    ∧ orgs w' = orgs w.
Proof.
  intros Hwf. destruct (delete_run sid w Hwf) as (new & w' & Hr & _ & Hs & Ho & _).
  by exists w'.
Qed.

(** X7. In a well-formed store, let [updateFn] modify no object that
    existed before it was called other than the array it is handed, and
    return an array holding [xs] whenever it is handed an array holding
    the sequence the session holds (the empty sequence if the session has
    no entry).  Then [updateToolsForSession(s, updateFn)] resolves with
    an array holding [xs] and binds the session to [xs], creating the
    entry if needed; every other session and the allowed orgs are as they
    were.  A following [getToolsForSession(s)] returns [xs] in another
    array. *)
Theorem update_sessions sid (updateFn : loc → M loc) xs w :
  wf w →
  respects updateFn →
  (∀ arg w0, closed w0 →
     arrObjs w0 !! arg = Some (toolsOf w (resolveToolSessionId sid)) →
     ∃ result, (updateFn arg w0).1 = Ok result
               ∧ arrObjs (updateFn arg w0).2 !! result = Some xs) →
  ∃ la w', updateToolsForSession sid updateFn w = (Ok la, w')
    ∧ arrAt w' la = xs
    ∧ sessions w' = <[resolveToolSessionId sid := xs]> (sessions w)
    ∧ orgs w' = orgs w
    ∧ ∃ la' w'', getToolsForSession (Error:=Error) sid w' = (Ok la', w'')
        ∧ arrAt w'' la' = xs ∧ la' ≠ la.
Proof.
  intros Hwf Hres Hret.
  destruct (update_call sid updateFn w Hwf Hres) as (copy & w1 & Hcl1 & Hcopy & Hrun).
  destruct (Hret copy w1 Hcl1 Hcopy) as (result & Hfn & Hxs).
  destruct (updateFn copy w1) as [[r|e'] w2]; [|done].
  simpl in Hfn, Hxs. injection Hfn as ->.
  destruct Hrun as (new & w' & Hu & Hwf' & Hg & _ & Ha & _ & _ & _ & _ & Hs & Ho).
  assert (Hla : arrObjs w' !! result = Some xs) by (by rw Ha).
  rw /arrAt Hxs /= in Hs.
  exists result, w'. split; [done|]. split; [by rw /arrAt Hla|]. split; [done|]. split; [done|].
  destruct (wf_theCache w' Hwf') as (lc & c & m & _ & _ & Htc & _).
  destruct (getTools_spec (Error:=Error) sid w' c Htc) as (la' & w'' & Hget & Hr & Hfresh & _).
  exists la', w''. split; [done|]. split; [by rw Hr Hs lookup_insert_eq|].
  intros ->. apply Hfresh. by apply elem_of_dom.
Qed.

(** X8. The array [updateToolsForSession] resolves with is the array it
    stored, not a copy: after any assignment to it, the session holds what
    was assigned. *)
Theorem update_returns_stored_array sid (f : list ToolInfo → Exc (list ToolInfo)) xs w :
  wf w →
  f (toolsOf w (resolveToolSessionId sid)) = Ok xs →
  ∃ la w', updateToolsForSession sid (callToolsFn f) w = (Ok la, w')
    ∧ ∀ ys, toolsOf (writeArray (Error:=Error) la ys w').2 (resolveToolSessionId sid) = ys.
Proof.
  intros Hwf Hf.
  destruct (update_run sid f xs w Hwf Hf)
    as (la & new & w' & Hu & Hwf' & _ & _ & _ & He & _ & Hm & _).
  exists la, w'. split; [done|]. intros ys.
  destruct (wf_theCache w' Hwf') as (lc & c & m & Hi & Hc & Htc & _).
  rw /entry Htc /= in He. injection He as <-.
  rw /writeArray /toolsOf /sessions /theCache /= Hi /= Hc /= /snapshot lookup_fmap.
  rw -/(mapAt w' (tools c)) Hm /= /arrAt /= lookup_insert_eq. done.
Qed.

(** X9. [safeGet('tools')] hands out the map the cache holds, not a copy:
    in a well-formed store it changes nothing, and deleting a key from
    the map it returned removes that session from the cache. *)
Theorem safeGet_tools_is_live w :
  wf w →
  ∃ lm, safeGet (Error:=Error) Ktools w = (Ok lm, w)
    ∧ ∀ k, sessions (mapDelete (Error:=Error) lm k w).2 = delete k (sessions w).
Proof.
  intros Hwf. destruct (wf_theCache w Hwf) as (lc & c & m & Hi & Hc & Htc & _ & Hm & _).
  exists (tools c). split; [by rw (safeGet_live Ktools w lc c Hi Hc)|]. intros k.
  rw /mapDelete /sessions /theCache /= Hi /= Hc /= /snapshot /mapAt /= lookup_insert_eq Hm /=.
  by rw fmap_delete.
Qed.

(** X10. [resetToolsForSession] and a successful [updateToolsForSession]
    have no no-op detection: in a well-formed store they bind 'tools' to
    a newly allocated map, different from the one bound before, even when
    the session already holds what they write. *)
Theorem reset_and_update_replace_the_map sid w :
  wf w →
  (∃ new, entry (resetToolsForSession (Error:=Error) sid w).2 Ktools = Some new
          ∧ (new ∉ dom (mapObjs w)) ∧ entry w Ktools ≠ Some new)
  ∧ (∀ (f : list ToolInfo → Exc (list ToolInfo)) xs,
       f (toolsOf w (resolveToolSessionId sid)) = Ok xs →
       ∃ new, entry (updateToolsForSession sid (callToolsFn f) w).2 Ktools = Some new
              ∧ (new ∉ dom (mapObjs w)) ∧ entry w Ktools ≠ Some new).
Proof.
  intros Hwf.
  destruct (wf_theCache w Hwf) as (lc & c & m & _ & _ & Htc & [_ Ht] & _).
  assert (Hold : ∀ new, new ∉ dom (mapObjs w) → entry w Ktools ≠ Some new).
  { intros new Hnew. rw /entry Htc /=. by intros [= <-]. }
  split.
  - destruct (reset_run sid w Hwf) as (new & w' & Hr & _ & _ & _ & He & Hnew).
    exists new. rw Hr. auto.
  - intros f xs Hf.
    destruct (update_run sid f xs w Hwf Hf)
      as (la & new & w' & Hu & _ & _ & _ & _ & He & Hnew & _).
    exists new. rw Hu. auto.
Qed.

(** ** How the operations compose *)

(** X11. [deleteToolSession] is idempotent: in every store, a second
    [deleteToolSession(s)] right after the first finds no entry and
    leaves the store exactly as the first left it. *)
Theorem delete_idempotent sid w :
  ∃ w1, deleteToolSession (Error:=Error) sid w = (Ok (), w1)
    ∧ deleteToolSession (Error:=Error) sid w1 = (Ok (), w1).
Proof.
  destruct (delete_removes (Error:=Error) sid w) as (w1 & c1 & Hd & Hc & Ha).
  exists w1. split; [done|]. by eapply delete_absent.
Qed.

(** X12. In a well-formed store, ensuring a session that has no entry and
    then deleting it gives back the sessions the cache held. *)
Theorem ensure_then_delete sid w :
  wf w →
  sessions w !! resolveToolSessionId sid = None →
  sessions (deleteToolSession (Error:=Error) sid
              (ensureToolSession (Error:=Error) sid w).2).2
  = sessions w.
Proof.
  intros Hwf Habs.
  destruct (ensure_run sid w Hwf) as (new & w1 & -> & Hwf1 & Hs1 & _). simpl.
  destruct (delete_run sid w1 Hwf1) as (new2 & w2 & -> & _ & Hs2 & _). simpl.
  rw Hs2 Hs1. by apply delete_insert_id.
Qed.

(** X13. In a well-formed store, [resetToolsForSession(s)] leaves the
    cache holding the same sessions as [deleteToolSession(s)] followed by
    [ensureToolSession(s)]. *)
Theorem reset_is_delete_then_ensure sid w :
  wf w →
  sessions (resetToolsForSession (Error:=Error) sid w).2
  = sessions (ensureToolSession (Error:=Error) sid
                (deleteToolSession (Error:=Error) sid w).2).2.
Proof.
  intros Hwf.
  destruct (reset_run sid w Hwf) as (new & w' & -> & _ & Hs & _). simpl.
  destruct (delete_run sid w Hwf) as (new1 & w1 & -> & Hwf1 & Hs1 & _). simpl.
  destruct (ensure_run sid w1 Hwf1) as (new2 & w2 & -> & _ & Hs2 & _). simpl.
  rw Hs Hs2 /toolsOf Hs1 lookup_delete_eq /=. by rw insert_delete_eq.
Qed.

(** X14. Awaited one after the other, calls
    [updateToolsForSession(s, tools => [...tools, item])] append their
    items in call order: in a well-formed store the session ends up
    holding what it held followed by the items, and every other session
    is as it was. *)
Theorem sequential_appends sid (items : list ToolInfo) w :
  wf w →
  let w' := performAll ((λ item, CallUpdate (Error:=Error) sid (appendItem item)) <$> items) w in
  toolsOf w' (resolveToolSessionId sid) = toolsOf w (resolveToolSessionId sid) ++ items
  ∧ ∀ k, k ≠ resolveToolSessionId sid → sessions w' !! k = sessions w !! k.
Proof.
  revert w. induction items as [|item items IH]; intros w Hwf; simpl.
  { by rw app_nil_r. }
  destruct (update_run sid (appendItem item) _ w Hwf eq_refl)
    as (la & new & w1 & Hu & Hwf1 & _ & Hs & _).
  rw Hu /=. destruct (IH w1 Hwf1) as [Ht Hk]. split.
  - by rw Ht /toolsOf Hs lookup_insert_eq /= -(assoc_L (++)).
  - intros k Hne. by rw (Hk k Hne) Hs lookup_insert_ne.
Qed.

(** ** The allowed orgs *)


(** ** Rejection and first use *)


(** X17. The first call initialises the cache.  On a closed store where
    the singleton does not exist yet, [ensureToolSession(s)] leaves the
    default session and [s], both empty; [resetToolsForSession(s)] does
    the same; and [deleteToolSession(s)] leaves the default session alone
    unless [s] resolves to it, in which case no session is left. *)
Theorem first_call_initialises sid w :
  closed w → instance w = None →
  sessions (ensureToolSession (Error:=Error) sid w).2
  = <[resolveToolSessionId sid := []]> {[ "default" := [] ]}
  ∧ sessions (resetToolsForSession (Error:=Error) sid w).2
    = <[resolveToolSessionId sid := []]> {[ "default" := [] ]}
  ∧ sessions (deleteToolSession (Error:=Error) sid w).2
    = delete (resolveToolSessionId sid) {[ "default" := [] ]}.
Proof.
  intros Hcl Hi.
  pose proof (getInstance_wf (Error:=Error) w Hcl) as Hwf.
  destruct (getInstance_init (Error:=Error) w Hi) as (cache & w0 & Hg & _ & _ & Hs0).
  rw Hg /= in Hwf.
  rw /ensureToolSession /resetToolsForSession /deleteToolSession /bind.
  rw !(safeUpdate_getInstance Ktools _ w) Hg /=.
  split; [|split].
  - destruct (ensure_run sid w0 Hwf) as (new & w' & He & _ & Hs & _).
    revert He. rw /ensureToolSession /bind.
    destruct (safeUpdate Ktools _ w0) as [[?|?] ?]; [|done]. intros [= <-].
    rw Hs /toolsOf Hs0.
    destruct (decide (resolveToolSessionId sid = DEFAULT_TOOL_SESSION_ID)) as [->|Hne].
    + by rw lookup_singleton_eq.
    + by rw lookup_singleton_ne.
  - destruct (reset_run sid w0 Hwf) as (new & w' & He & _ & Hs & _).
    revert He. rw /resetToolsForSession /bind.
    destruct (safeUpdate Ktools _ w0) as [[?|?] ?]; [|done]. intros [= <-].
    by rw Hs Hs0.
  - destruct (delete_run sid w0 Hwf) as (new & w' & He & _ & Hs & _).
    revert He. rw /deleteToolSession /bind.
    destruct (safeUpdate Ktools _ w0) as [[?|?] ?]; [|done]. intros [= <-].
    by rw Hs Hs0.
Qed.

End further.

(** ** The further properties at concrete inputs *)

Lemma singleton_identity_witness :
  closed (emptyWorld (ToolInfo:=nat))
  ∧ ∃ cache w1, getInstance (Error:=string) (emptyWorld (ToolInfo:=nat)) = (Ok cache, w1)
      ∧ getInstance (Error:=string) (performAll exampleCalls w1)
        = (Ok cache, performAll exampleCalls w1).
Proof.
  assert (H1 : closed (emptyWorld (ToolInfo:=nat))) by by_decide.
  split; [exact H1|].
  destruct (singleton_identity (Error:=string) emptyWorld H1) as (cache & w1 & Hg & Hall).
  exists cache, w1. split; [exact Hg|exact (Hall exampleCalls)].
Defined.

Lemma safeUpdate_stores_result_witness :
  wf exampleStore
  ∧ entry exampleStore Ktools = Some 3%positive
  ∧ ret (Error:=string) 3%positive exampleStore = (Ok 3%positive, exampleStore)
  ∧ safeUpdate (Error:=string) Ktools ret exampleStore = (Ok 3%positive, exampleStore)
  ∧ ∃ w2, safeUpdate (Error:=string) Ktools ret exampleStore = (Ok 3%positive, w2)
      ∧ safeGet (Error:=string) Ktools w2 = (Ok 3%positive, w2).
Proof.
  assert (H1 : wf exampleStore) by by_decide.
  assert (H2 : entry exampleStore Ktools = Some 3%positive) by (vm_compute; reflexivity).
  assert (H3 : ret (Error:=string) 3%positive exampleStore = (Ok 3%positive, exampleStore))
    by reflexivity.
  split; [exact H1|]. split; [exact H2|]. split; [exact H3|].
  destruct (safeUpdate_stores_result (Error:=string) Ktools ret exampleStore H1) as [Ha Hb].
  split; [exact (Hb 3%positive H2 H3)|].
  destruct (Ha 3%positive 3%positive exampleStore H2 H3 eq_refl eq_refl) as (w2 & Hu & Hg & _).
  exists w2. split; [exact Hu|exact Hg].
Defined.

Lemma reset_sessions_witness :
  wf exampleStore
  ∧ ∃ w', resetToolsForSession (Error:=string) (Some "a") exampleStore = (Ok (), w')
      ∧ sessions w' = <[ "a" := [] ]> (sessions exampleStore).
Proof.
  assert (H1 : wf exampleStore) by by_decide.
  split; [exact H1|].
  destruct (reset_sessions (Error:=string) (Some "a") exampleStore H1) as (w' & Hr & Hs & _).
  exists w'. split; [exact Hr|exact Hs].
Defined.

Lemma ensure_sessions_witness :
  wf exampleStore
  ∧ sessions exampleStore !! "a" = Some [7]
  ∧ ∃ w', ensureToolSession (Error:=string) (Some "b") exampleStore = (Ok (), w')
      ∧ sessions w' !! "a" = Some [7].
Proof.
  assert (H1 : wf exampleStore) by by_decide.
  assert (H2 : sessions exampleStore !! "a" = Some [7]) by (vm_compute; reflexivity).
  split; [exact H1|]. split; [exact H2|].
  destruct (ensure_sessions (Error:=string) (Some "b") exampleStore H1)
    as (w' & He & _ & _ & Hk & _).
  exists w'. split; [exact He|exact (Hk "a" [7] H2)].
Defined.

Lemma delete_sessions_witness :
  wf exampleStore
  ∧ ∃ w', deleteToolSession (Error:=string) (Some "a") exampleStore = (Ok (), w')
      ∧ sessions w' = delete "a" (sessions exampleStore).
Proof.
  assert (H1 : wf exampleStore) by by_decide.
  split; [exact H1|].
  destruct (delete_sessions (Error:=string) (Some "a") exampleStore H1) as (w' & Hr & Hs & _).
  exists w'. split; [exact Hr|exact Hs].
Defined.

Lemma update_sessions_witness :
  wf exampleStore
  ∧ respects (pushInPlace (Error:=string) 8)
  ∧ ∃ la w', updateToolsForSession (Error:=string) (Some "a") (pushInPlace 8) exampleStore
             = (Ok la, w')
      ∧ arrAt w' la = [7; 8]
      ∧ sessions w' = <[ "a" := [7; 8] ]> (sessions exampleStore)
      ∧ orgs w' = orgs exampleStore.
Proof.
  assert (H1 : wf exampleStore) by by_decide.
  assert (H2 : respects (pushInPlace (Error:=string) 8)) by apply pushInPlace_respects.
  assert (H3 : ∀ arg (w0 : World nat), closed w0 →
            arrObjs w0 !! arg = Some (toolsOf exampleStore (resolveToolSessionId (Some "a"))) →
            ∃ result, (pushInPlace (Error:=string) 8 arg w0).1 = Ok result
                      ∧ arrObjs (pushInPlace (Error:=string) 8 arg w0).2 !! result = Some [7; 8]).
  { intros arg w0 _ Harg. exists arg. split; [reflexivity|].
    rw /pushInPlace /= lookup_insert_eq /arrAt Harg. reflexivity. }
  split; [exact H1|]. split; [exact H2|].
  destruct (update_sessions (Some "a") (pushInPlace 8) [7; 8] exampleStore H1 H2 H3)
    as (la & w' & Hu & Ha & Hs & Ho & _).
  exists la, w'. split; [exact Hu|]. split; [exact Ha|]. split; [exact Hs|exact Ho].
Defined.

Lemma update_returns_stored_array_witness :
  wf exampleStore
  ∧ appendItem (Error:=string) 8 (toolsOf exampleStore "a") = Ok [7; 8]
  ∧ ∃ la w', updateToolsForSession (Error:=string) (Some "a") (callToolsFn (appendItem 8)) exampleStore
             = (Ok la, w')
      ∧ toolsOf (writeArray (Error:=string) la [9] w').2 "a" = [9].
Proof.
  assert (H1 : wf exampleStore) by by_decide.
  assert (H2 : appendItem (Error:=string) 8 (toolsOf exampleStore "a") = Ok [7; 8])
    by (vm_compute; reflexivity).
  split; [exact H1|]. split; [exact H2|].
  destruct (update_returns_stored_array (Some "a") (appendItem 8) [7; 8] exampleStore H1 H2)
    as (la & w' & Hu & Hw).
  exists la, w'. split; [exact Hu|exact (Hw [9])].
Defined.

Lemma safeGet_tools_is_live_witness :
  wf exampleStore
  ∧ ∃ lm, safeGet (Error:=string) Ktools exampleStore = (Ok lm, exampleStore)
      ∧ sessions (mapDelete (Error:=string) lm "a" exampleStore).2
        = delete "a" (sessions exampleStore).
Proof.
  assert (H1 : wf exampleStore) by by_decide.
  split; [exact H1|].
  destruct (safeGet_tools_is_live (Error:=string) exampleStore H1) as (lm & Hg & Hd).
  exists lm. split; [exact Hg|exact (Hd "a")].
Defined.

Lemma reset_and_update_replace_the_map_witness :
  wf exampleStore
  ∧ appendItem (Error:=string) 8 (toolsOf exampleStore "a") = Ok [7; 8]
  ∧ (∃ new, entry (resetToolsForSession (Error:=string) (Some "a") exampleStore).2 Ktools
            = Some new ∧ entry exampleStore Ktools ≠ Some new)
  ∧ (∃ new, entry (updateToolsForSession (Error:=string) (Some "a") (callToolsFn (appendItem 8))
                     exampleStore).2 Ktools = Some new
            ∧ entry exampleStore Ktools ≠ Some new).
Proof.
  assert (H1 : wf exampleStore) by by_decide.
  assert (H2 : appendItem (Error:=string) 8 (toolsOf exampleStore "a") = Ok [7; 8])
    by (vm_compute; reflexivity).
  split; [exact H1|]. split; [exact H2|].
  destruct (reset_and_update_replace_the_map (Error:=string) (Some "a") exampleStore H1)
    as [(new & He & _ & Hne) Hupd].
  split; [exists new; split; [exact He|exact Hne]|].
  destruct (Hupd (appendItem 8) [7; 8] H2) as (new' & He' & _ & Hne').
  exists new'. split; [exact He'|exact Hne'].
Defined.

Lemma ensure_then_delete_witness :
  wf exampleStore
  ∧ sessions exampleStore !! "zz" = None
  ∧ sessions (deleteToolSession (Error:=string) (Some "zz")
                (ensureToolSession (Error:=string) (Some "zz") exampleStore).2).2
    = sessions exampleStore.
Proof.
  assert (H1 : wf exampleStore) by by_decide.
  assert (H2 : sessions exampleStore !! "zz" = None) by (vm_compute; reflexivity).
  split; [exact H1|]. split; [exact H2|].
  exact (ensure_then_delete (Error:=string) (Some "zz") exampleStore H1 H2).
Defined.

Lemma reset_is_delete_then_ensure_witness :
  wf exampleStore
  ∧ sessions (resetToolsForSession (Error:=string) (Some "a") exampleStore).2
    = sessions (ensureToolSession (Error:=string) (Some "a")
                  (deleteToolSession (Error:=string) (Some "a") exampleStore).2).2.
Proof.
  assert (H1 : wf exampleStore) by by_decide.
  split; [exact H1|].
  exact (reset_is_delete_then_ensure (Error:=string) (Some "a") exampleStore H1).
Defined.

Lemma sequential_appends_witness :
  wf exampleStore
  ∧ toolsOf (performAll
               ((λ item, CallUpdate (Error:=string) (Some "a") (appendItem item)) <$> [8; 9])
               exampleStore) "a"
    = toolsOf exampleStore "a" ++ [8; 9].
Proof.
  assert (H1 : wf exampleStore) by by_decide.
  split; [exact H1|].
  exact (proj1 (sequential_appends (Error:=string) (Some "a") [8; 9] exampleStore H1)).
Defined.


Lemma first_call_initialises_witness :
  closed (emptyWorld (ToolInfo:=nat))
  ∧ instance (emptyWorld (ToolInfo:=nat)) = None
  ∧ sessions (deleteToolSession (Error:=string) None (emptyWorld (ToolInfo:=nat))).2
    = delete "default" {[ "default" := [] ]}.
Proof.
  assert (H1 : closed (emptyWorld (ToolInfo:=nat))) by by_decide.
  split; [exact H1|]. split; [reflexivity|].
  exact (proj2 (proj2 (first_call_initialises (Error:=string) None emptyWorld H1 eq_refl))).
Defined.
